(** * A task-tracking canister: users, tasks and the ownership checks

    Shallow embedding of the canister of [index.ts]: two stable maps
    ([userStorage] keyed by principal, [taskStorage] keyed by task id) and the
    eight public methods that guard and mutate them.

    Conventions of the embedding.
    - A JavaScript string is the list of its UTF-16 code units.
    - A method runs in one message execution: [ic.caller()] and [ic.time()]
      are constant during it, and [uuidv4()] is called at most once.  The
      three values are the fields of a [Call].
    - The two stable maps are threaded explicitly: a method maps a [State] to
      its result and the next [State].
    - An error is a kind and a message.  The messages are those of the
      complete listing of the canister; the properties speak of kinds. *)

From stdpp Require Import gmap list fin_maps.
From Stdlib Require Import String Ascii.

Local Open Scope N_scope.

(** ** Strings *)

(** A UTF-16 code unit. *)
Definition char16 := N.

(** A JavaScript string ([text] on the Candid side). *)
Abbreviation text := (list char16).

(** A string literal of the source. *)
Definition lit (s : string) : text :=
  map N_of_ascii (list_ascii_of_string s).

(** [!s] for a string [s]: only the empty string is falsy. *)
Definition falsy (s : text) : bool :=
  match s with
  | [] => true
  | _ :: _ => false
  end.

(** ** Regular expressions, as far as [emailRegex] needs them *)

(** The class [\s] of ECMAScript: WhiteSpace and LineTerminator code units. *)
Definition is_space (c : char16) : bool :=
  (9 <=? c) && (c <=? 13)
  || (c =? 32) || (c =? 160) || (c =? 5760)
  || (8192 <=? c) && (c <=? 8202)
  || (c =? 8232) || (c =? 8233) || (c =? 8239) || (c =? 8287)
  || (c =? 12288) || (c =? 65279).

Inductive atom :=
| NotSpace               (* \S *)
| Lit (c : char16).      (* a literal code unit *)

Inductive node :=
| One (a : atom)         (* a  *)
| Plus (a : atom).       (* a+ , greedy *)

Abbreviation regex := (list node).

Definition atom_match (a : atom) (c : char16) : bool :=
  match a with
  | NotSpace => negb (is_space c)
  | Lit d => c =? d
  end.

(** [a+] followed by the continuation [k]: take as many code units as
    possible, then give them back one at a time until [k] succeeds. *)
Fixpoint match_plus (a : atom) (k : text -> bool) (s : text) : bool :=
  match s with
  | [] => false
  | c :: s' => atom_match a c && (match_plus a k s' || k s')
  end.

(** Backtracking match of [r] at the start of the input, then [k] on the
    rest. *)
Fixpoint match_here (r : regex) (k : text -> bool) : text -> bool :=
  match r with
  | [] => k
  | One a :: r' =>
      fun s => match s with
               | [] => false
               | c :: s' => atom_match a c && match_here r' k s'
               end
  | Plus a :: r' => match_plus a (match_here r' k)
  end.

(** [RegExp.prototype.test] without flags: try every start index in turn. *)
Fixpoint test (r : regex) (s : text) : bool :=
  match_here r (fun _ => true) s
  || match s with
     | [] => false
     | _ :: s' => test r s'
     end.

(** The strings a regex describes: what a match of the whole regex consumes. *)
Inductive matches : regex -> text -> Prop :=
| matches_nil : matches [] []
| matches_One a c r s :
    atom_match a c = true -> matches r s -> matches (One a :: r) (c :: s)
| matches_Plus a x r s :
    x ≠ [] -> Forall (fun c => atom_match a c = true) x -> matches r s ->
    matches (Plus a :: r) (x ++ s).

(** ** Records *)

(** A principal, identified with its canonical textual form. *)
Record Principal := mkPrincipal { toText : text }.

#[global] Instance Principal_eq_dec : EqDecision Principal.
Proof. solve_decision. Defined.

#[global] Instance Principal_countable : Countable Principal.
Proof.
  apply (inj_countable' toText mkPrincipal). by intros [].
Defined.

Abbreviation nat64 := N (only parsing).

Record User := mkUser {
  User_id : Principal;
  User_name : text;
  User_email : text;
  User_createdAt : nat64;
  User_updatedAt : nat64;
}.

Record Task := mkTask {
  Task_id : text;
  Task_title : text;
  Task_description : text;
  Task_isCompleted : bool;
  Task_owner : Principal;
  Task_createdAt : nat64;
  Task_updatedAt : nat64;
}.

Record UserPayload := mkUserPayload {
  UserPayload_name : text;
  UserPayload_email : text;
}.

Record TaskPayload := mkTaskPayload {
  TaskPayload_title : text;
  TaskPayload_description : text;
}.

#[global] Instance User_eq_dec : EqDecision User.
Proof. solve_decision. Defined.

#[global] Instance Task_eq_dec : EqDecision Task.
Proof. solve_decision. Defined.

(** ** Errors and results *)

Inductive Error :=
| NotFound (msg : text)
| Unauthorized (msg : text)
| Forbidden (msg : text)
| BadRequest (msg : text)
| InternalError (msg : text).

Inductive Result (A : Type) :=
| Ok (a : A)
| Err (e : Error).
Arguments Ok {A} a.
Arguments Err {A} e.

(** The populated case of an error, without its message. *)
Inductive ErrorKind :=
| KNotFound | KUnauthorized | KForbidden | KBadRequest | KInternalError.

Definition kind_of (e : Error) : ErrorKind :=
  match e with
  | NotFound _ => KNotFound
  | Unauthorized _ => KUnauthorized
  | Forbidden _ => KForbidden
  | BadRequest _ => KBadRequest
  | InternalError _ => KInternalError
  end.

(** [fails_with r k]: [r] is [Err] of kind [k]. *)
Definition fails_with {A} (r : Result A) (k : ErrorKind) : Prop :=
  match r with
  | Ok _ => False
  | Err e => kind_of e = k
  end.

(** [rejects out k st]: the method answered with an error of kind [k] and left
    the storages as they were in [st]. *)
Definition rejects {A St} (out : Result A * St) (k : ErrorKind) (st : St) : Prop :=
  fails_with out.1 k ∧ out.2 = st.

(** ** Storages *)

Record State := mkState {
  userStorage : gmap Principal User;
  taskStorage : gmap text Task;
}.

(** Both stable maps are empty when the canister is installed. *)
Definition init : State := mkState ∅ ∅.

(** What the platform supplies to one message execution. *)
Record Call := mkCall {
  ic_caller : Principal;   (* ic.caller() *)
  ic_time : nat64;         (* ic.time()   *)
  uuidv4 : text;           (* uuidv4()    *)
}.

(** [StableBTreeMap.containsKey]. *)
Definition containsKey `{Countable K} {V} (m : gmap K V) (k : K) : bool :=
  bool_decide (is_Some (m !! k)).

(** [StableBTreeMap.values]: a snapshot of the stored values.  The stable
    map enumerates by key; here the snapshot comes in the order [map_to_list]
    gives, and the properties below speak of membership and of listings up to
    permutation only. *)
Definition values `{Countable K} {V} (m : gmap K V) : list V :=
  (map_to_list m).*2.

Definition isUserExists (st : State) (id : Principal) : bool :=
  containsKey (userStorage st) id.

Definition isTaskExists (st : State) (id : text) : bool :=
  containsKey (taskStorage st) id.

Definition emailRegex : regex :=
  [Plus NotSpace; One (Lit 64); Plus NotSpace; One (Lit 46); Plus NotSpace].

Definition isEmailValid (email : text) : bool :=
  test emailRegex email.

Definition set_users (st : State) (m : gmap Principal User) : State :=
  mkState m (taskStorage st).

Definition set_tasks (st : State) (m : gmap text Task) : State :=
  mkState (userStorage st) m.

(** ** The canister methods *)

Module Msg.
Definition required_user := lit "Invalid input: Name and email are required".
Definition bad_email := lit "Invalid input: Email is not valid".
Definition user_exists := lit "Invalid input: User already exists".
Definition no_user := lit "Invalid operation: User does not exist".
Definition required_title := lit "Invalid input: Title is required".
Definition not_owner := lit "Invalid operation: You are not the task owner".
Definition internal := lit "Internal server error".
Definition deleted := lit "Task deleted successfully".
(* `Task not found with id ${id}` *)
Definition task_not_found (id : text) := lit "Task not found with id " ++ id.
End Msg.

(** A method: from the state before the call to its result and the state
    after the call. *)
Abbreviation Method A := (State -> Result A * State).

(** The [.Some] of a lookup that follows a successful [containsKey].  Were the
    entry missing, the use of the undefined value would throw, and the
    [catch] of the method would answer with [InternalError]. *)
Definition get_Some {V A} (o : option V) (st : State)
    (k : V -> Result A * State) : Result A * State :=
  match o with
  | Some v => k v
  | None => (Err (InternalError Msg.internal), st)
  end.

Definition createUser (call : Call) (payload : UserPayload) : Method User :=
  fun st =>
  if falsy (UserPayload_name payload) || falsy (UserPayload_email payload) then
    (Err (BadRequest Msg.required_user), st)
  else if negb (isEmailValid (UserPayload_email payload)) then
    (Err (BadRequest Msg.bad_email), st)
  else if isUserExists st (ic_caller call) then
    (Err (BadRequest Msg.user_exists), st)
  else
    let newUser :=
      {| User_id := ic_caller call;
         User_createdAt := ic_time call;
         User_updatedAt := ic_time call;
         User_name := UserPayload_name payload;
         User_email := UserPayload_email payload |} in
    (Ok newUser, set_users st (<[User_id newUser := newUser]> (userStorage st))).

Definition getMe (call : Call) : Method User :=
  fun st =>
  if negb (isUserExists st (ic_caller call)) then
    (Err (Unauthorized Msg.no_user), st)
  else
    get_Some (userStorage st !! ic_caller call) st (fun user => (Ok user, st)).

Definition updateMe (call : Call) (payload : UserPayload) : Method User :=
  fun st =>
  if negb (isUserExists st (ic_caller call)) then
    (Err (Unauthorized Msg.no_user), st)
  else if falsy (UserPayload_name payload) || falsy (UserPayload_email payload) then
    (Err (BadRequest Msg.required_user), st)
  else if negb (isEmailValid (UserPayload_email payload)) then
    (Err (BadRequest Msg.bad_email), st)
  else
    get_Some (userStorage st !! ic_caller call) st (fun user =>
    let updatedUser :=
      {| User_id := User_id user;
         User_createdAt := User_createdAt user;
         User_name := UserPayload_name payload;
         User_email := UserPayload_email payload;
         User_updatedAt := ic_time call |} in
    (Ok updatedUser,
     set_users st (<[User_id updatedUser := updatedUser]> (userStorage st)))).

Definition createTask (call : Call) (payload : TaskPayload) : Method Task :=
  fun st =>
  if negb (isUserExists st (ic_caller call)) then
    (Err (Unauthorized Msg.no_user), st)
  else if falsy (TaskPayload_title payload) then
    (Err (BadRequest Msg.required_title), st)
  else
    let task :=
      {| Task_id := uuidv4 call;
         Task_isCompleted := false;
         Task_owner := ic_caller call;
         Task_createdAt := ic_time call;
         Task_updatedAt := ic_time call;
         Task_title := TaskPayload_title payload;
         Task_description := TaskPayload_description payload |} in
    (Ok task, set_tasks st (<[Task_id task := task]> (taskStorage st))).

Definition getMyTasks (call : Call) : Method (list Task) :=
  fun st =>
  if negb (isUserExists st (ic_caller call)) then
    (Err (Unauthorized Msg.no_user), st)
  else
    let filteredTasks :=
      filter (fun task => toText (Task_owner task) = toText (ic_caller call))
             (values (taskStorage st)) in
    (Ok filteredTasks, st).

Definition updateMyTask (call : Call) (id : text) (payload : TaskPayload)
    : Method Task :=
  fun st =>
  if negb (isUserExists st (ic_caller call)) then
    (Err (Unauthorized Msg.no_user), st)
  else if falsy (TaskPayload_title payload) then
    (Err (BadRequest Msg.required_title), st)
  else if negb (isTaskExists st id) then
    (Err (NotFound (Msg.task_not_found id)), st)
  else
    get_Some (taskStorage st !! id) st (fun task =>
    if bool_decide (toText (Task_owner task) ≠ toText (ic_caller call)) then
      (Err (Forbidden Msg.not_owner), st)
    else
      let updatedTask :=
        {| Task_id := Task_id task;
           Task_isCompleted := Task_isCompleted task;
           Task_owner := Task_owner task;
           Task_createdAt := Task_createdAt task;
           Task_title := TaskPayload_title payload;
           Task_description := TaskPayload_description payload;
           Task_updatedAt := ic_time call |} in
      (Ok updatedTask,
       set_tasks st (<[Task_id updatedTask := updatedTask]> (taskStorage st)))).

Definition toggleMyTask (call : Call) (id : text) : Method Task :=
  fun st =>
  if negb (isUserExists st (ic_caller call)) then
    (Err (Unauthorized Msg.no_user), st)
  else if negb (isTaskExists st id) then
    (Err (NotFound (Msg.task_not_found id)), st)
  else
    get_Some (taskStorage st !! id) st (fun task =>
    if bool_decide (toText (Task_owner task) ≠ toText (ic_caller call)) then
      (Err (Forbidden Msg.not_owner), st)
    else
      let toggledTask :=
        {| Task_id := Task_id task;
           Task_title := Task_title task;
           Task_description := Task_description task;
           Task_owner := Task_owner task;
           Task_createdAt := Task_createdAt task;
           Task_isCompleted := negb (Task_isCompleted task);
           Task_updatedAt := ic_time call |} in
      (Ok toggledTask,
       set_tasks st (<[Task_id toggledTask := toggledTask]> (taskStorage st)))).

Definition deleteMyTask (call : Call) (id : text) : Method text :=
  fun st =>
  if negb (isUserExists st (ic_caller call)) then
    (Err (Unauthorized Msg.no_user), st)
  else if negb (isTaskExists st id) then
    (Err (NotFound (Msg.task_not_found id)), st)
  else
    get_Some (taskStorage st !! id) st (fun task =>
    if bool_decide (toText (Task_owner task) ≠ toText (ic_caller call)) then
      (Err (Forbidden Msg.not_owner), st)
    else
      (Ok Msg.deleted, set_tasks st (delete (Task_id task) (taskStorage st)))).

(** ** Runs of the canister *)

(** One message to the canister. *)
Inductive Request :=
| CreateUser (payload : UserPayload)
| GetMe
| UpdateMe (payload : UserPayload)
| CreateTask (payload : TaskPayload)
| GetMyTasks
| UpdateMyTask (id : text) (payload : TaskPayload)
| ToggleMyTask (id : text)
| DeleteMyTask (id : text).

(** The state the canister is left in by one message. *)
Definition step (call : Call) (req : Request) (st : State) : State :=
  match req with
  | CreateUser payload => (createUser call payload st).2
  | GetMe => (getMe call st).2
  | UpdateMe payload => (updateMe call payload st).2
  | CreateTask payload => (createTask call payload st).2
  | GetMyTasks => (getMyTasks call st).2
  | UpdateMyTask id payload => (updateMyTask call id payload st).2
  | ToggleMyTask id => (toggleMyTask call id st).2
  | DeleteMyTask id => (deleteMyTask call id st).2
  end.

(** The states the canister can be in: those a finite sequence of messages
    leads to from the empty storages. *)
Inductive reachable : State -> Prop :=
| reachable_init : reachable init
| reachable_step call req st : reachable st -> reachable (step call req st).

(** Every task is stored under its own [id]. *)
Definition tasks_keyed_by_id (st : State) : Prop :=
  map_Forall (fun k task => Task_id task = k) (taskStorage st).

(** Every user is stored under its own [id]. *)
Definition users_keyed_by_id (st : State) : Prop :=
  map_Forall (fun k user => User_id user = k) (userStorage st).

(** The owner of every task has a user record. *)
Definition owners_registered (st : State) : Prop :=
  map_Forall (fun _ task => is_Some (userStorage st !! Task_owner task))
             (taskStorage st).

(** The tasks of [who], as [getMyTasks] selects them. *)
Definition tasks_of (who : Principal) (st : State) : list Task :=
  filter (fun task => toText (Task_owner task) = toText who)
         (values (taskStorage st)).

(** A string of one or more code units, all of them white space. *)
Definition blank (s : text) : Prop :=
  s ≠ [] ∧ Forall (fun c => is_space c = true) s.

(** A string of one or more code units, none of them white space. *)
Definition nonspaces (s : text) : Prop :=
  s ≠ [] ∧ Forall (fun c => is_space c = false) s.

(** The shape the email pattern describes: one or more non-space code units,
    an at sign, one or more non-space code units, a dot, one or more non-space
    code units. *)
Definition email_shaped (s : text) : Prop :=
  ∃ a b c, nonspaces a ∧ nonspaces b ∧ nonspaces c ∧
           s = a ++ [64] ++ b ++ [46] ++ c.

(** [s] has a substring of the email shape. *)
Definition contains_email_shape (s : text) : Prop :=
  ∃ pre mid post, email_shaped mid ∧ s = pre ++ mid ++ post.

(** ** The records the methods build *)

(** The record [updateMyTask] stores: [{...task, ...payload, updatedAt}]. *)
Definition updated (task : Task) (payload : TaskPayload) (now : nat64) : Task :=
  {| Task_id := Task_id task;
     Task_title := TaskPayload_title payload;
     Task_description := TaskPayload_description payload;
     Task_isCompleted := Task_isCompleted task;
     Task_owner := Task_owner task;
     Task_createdAt := Task_createdAt task;
     Task_updatedAt := now |}.

(** The record [toggleMyTask] stores: [{...task, isCompleted, updatedAt}]. *)
Definition toggled (task : Task) (now : nat64) : Task :=
  {| Task_id := Task_id task;
     Task_title := Task_title task;
     Task_description := Task_description task;
     Task_isCompleted := negb (Task_isCompleted task);
     Task_owner := Task_owner task;
     Task_createdAt := Task_createdAt task;
     Task_updatedAt := now |}.

(** The record [createTask] stores. *)
Definition created (call : Call) (payload : TaskPayload) : Task :=
  {| Task_id := uuidv4 call;
     Task_title := TaskPayload_title payload;
     Task_description := TaskPayload_description payload;
     Task_isCompleted := false;
     Task_owner := ic_caller call;
     Task_createdAt := ic_time call;
     Task_updatedAt := ic_time call |}.

(** ** Sample data for the examples *)

Module Sample.

Definition alice : Principal := mkPrincipal (lit "2vxsx-fae").
Definition bob : Principal := mkPrincipal (lit "aaaaa-aa").
Definition carol : Principal := mkPrincipal (lit "rrkah-fqaaa").

Definition task_id : text := lit "9b1deb4d-3b7d-4bad-9bdd-2b0d7b3dcb6d".

(** Alice and Bob are registered; Carol is not. *)
Definition two_users : State :=
  step (mkCall bob 2 [])
       (CreateUser (mkUserPayload (lit "Bob") (lit "bob@x.com")))
    (step (mkCall alice 1 [])
          (CreateUser (mkUserPayload (lit "Alice") (lit "alice@x.com")))
       init).

(** Alice has created the task "Buy milk". *)
Definition one_task : State :=
  step (mkCall alice 3 task_id)
       (CreateTask (mkTaskPayload (lit "Buy milk") (lit "2%")))
    two_users.

Definition buy_milk : Task :=
  mkTask task_id (lit "Buy milk") (lit "2%") false alice 3 3.

Definition no_title : TaskPayload := mkTaskPayload [] (lit "2%").
Definition new_title : TaskPayload := mkTaskPayload (lit "Buy oat milk") [].

End Sample.

(** ** Sequences of messages *)

(** The state after a sequence of messages, each with its own call context. *)
Definition run (msgs : list (Call * Request)) (st : State) : State :=
  foldl (fun s m => step m.1 m.2 s) st msgs.

(** The times of the messages never go back, starting from [now]. *)
Fixpoint ascending (now : nat64) (msgs : list (Call * Request)) : Prop :=
  match msgs with
  | [] => True
  | m :: msgs' => now ≤ ic_time m.1 ∧ ascending (ic_time m.1) msgs'
  end.

(** No record was created after it was last updated, and none was updated
    after [now]. *)
Definition stamps_before (now : nat64) (st : State) : Prop :=
  map_Forall (fun _ task => Task_createdAt task ≤ Task_updatedAt task
                            ∧ Task_updatedAt task ≤ now) (taskStorage st)
  ∧ map_Forall (fun _ user => User_createdAt user ≤ User_updatedAt user
                              ∧ User_updatedAt user ≤ now) (userStorage st).

(** [r] is an [Err]. *)
Definition is_Err {A} (r : Result A) : Prop :=
  match r with
  | Ok _ => False
  | Err _ => True
  end.

(** The positions of an at sign and of a later dot in [s], with a code unit
    before the at sign, one between the two and one after the dot. *)
Definition at_then_dot (s : text) (i j : nat) : Prop :=
  (0 < i)%nat ∧ (i + 1 < j)%nat ∧ (j + 1 < List.length s)%nat
  ∧ s !! i = Some 64 ∧ s !! j = Some 46.

(** ** The source of random bytes *)

From Stdlib Require QArith Qround.

(** The conversion applied by a store into a [Uint8Array]. *)
Definition ToUint8 (v : Z) : Z := (v mod 256)%Z.

(** [crypto.getRandomValues] as the canister installs it: a fresh array of 32
    bytes, the byte at index [i] being [Math.floor(Math.random() * 256)] for
    the [i]-th draw [random i].  A draw is a double in the unit interval;
    scaling it by 256 is exact, so the draws are taken as rationals. *)
Definition getRandomValues (random : nat -> QArith_base.Q) : list Z :=
  let array := replicate 32 0%Z in
  foldl (fun array i => <[i := ToUint8 (Qround.Qfloor (QArith_base.Qmult (random i) (QArith_base.inject_Z 256)))]> array)
        array (seq 0 (List.length array)).

(** * Properties *)

(** ** Basic facts about the guards *)

Lemma containsKey_true `{Countable K} {V} (m : gmap K V) k :
  containsKey m k = true ↔ is_Some (m !! k).
Proof. unfold containsKey. by rewrite bool_decide_eq_true. Qed.

Lemma containsKey_false `{Countable K} {V} (m : gmap K V) k :
  containsKey m k = false ↔ m !! k = None.
Proof.
  unfold containsKey. by rewrite bool_decide_eq_false, eq_None_not_Some.
Qed.

Lemma isUserExists_true st id :
  isUserExists st id = true ↔ is_Some (userStorage st !! id).
Proof. apply containsKey_true. Qed.

Lemma isUserExists_false st id :
  isUserExists st id = false ↔ userStorage st !! id = None.
Proof. apply containsKey_false. Qed.

Lemma isTaskExists_true st id :
  isTaskExists st id = true ↔ is_Some (taskStorage st !! id).
Proof. apply containsKey_true. Qed.

Lemma isTaskExists_false st id :
  isTaskExists st id = false ↔ taskStorage st !! id = None.
Proof. apply containsKey_false. Qed.

Lemma isTaskExists_Some st id task :
  taskStorage st !! id = Some task -> isTaskExists st id = true.
Proof. intros E. apply isTaskExists_true. by rewrite E. Qed.

Lemma toText_inj p q : toText p = toText q ↔ p = q.
Proof. split; [ destruct p, q; simpl; congruence | by intros -> ]. Qed.

Lemma owner_check_true task who :
  Task_owner task ≠ who ->
  bool_decide (toText (Task_owner task) ≠ toText who) = true.
Proof. intros N. apply bool_decide_eq_true. by rewrite toText_inj. Qed.

Lemma owner_check_false task who :
  Task_owner task = who ->
  bool_decide (toText (Task_owner task) ≠ toText who) = false.
Proof. intros ->. apply bool_decide_eq_false. tauto. Qed.

Lemma falsy_false s : falsy s = false ↔ s ≠ [].
Proof. destruct s; simpl; split; congruence. Qed.

Lemma set_tasks_id st : set_tasks st (taskStorage st) = st.
Proof. by destruct st. Qed.

Lemma set_users_id st : set_users st (userStorage st) = st.
Proof. by destruct st. Qed.

(** ** The registration guard *)

Section Unregistered.
Variables (call : Call) (st : State).
Hypothesis no_record : userStorage st !! ic_caller call = None.

Lemma unregistered_guard : negb (isUserExists st (ic_caller call)) = true.
Proof using no_record.
  apply negb_true_iff. by apply isUserExists_false.
Qed.

Lemma getMe_unregistered :
  getMe call st = (Err (Unauthorized Msg.no_user), st).
Proof using no_record. unfold getMe. by rewrite unregistered_guard. Qed.

Lemma updateMe_unregistered payload :
  updateMe call payload st = (Err (Unauthorized Msg.no_user), st).
Proof using no_record. unfold updateMe. by rewrite unregistered_guard. Qed.

Lemma createTask_unregistered payload :
  createTask call payload st = (Err (Unauthorized Msg.no_user), st).
Proof using no_record. unfold createTask. by rewrite unregistered_guard. Qed.

Lemma getMyTasks_unregistered :
  getMyTasks call st = (Err (Unauthorized Msg.no_user), st).
Proof using no_record. unfold getMyTasks. by rewrite unregistered_guard. Qed.

Lemma updateMyTask_unregistered id payload :
  updateMyTask call id payload st = (Err (Unauthorized Msg.no_user), st).
Proof using no_record. unfold updateMyTask. by rewrite unregistered_guard. Qed.

Lemma toggleMyTask_unregistered id :
  toggleMyTask call id st = (Err (Unauthorized Msg.no_user), st).
Proof using no_record. unfold toggleMyTask. by rewrite unregistered_guard. Qed.

Lemma deleteMyTask_unregistered id :
  deleteMyTask call id st = (Err (Unauthorized Msg.no_user), st).
Proof using no_record. unfold deleteMyTask. by rewrite unregistered_guard. Qed.

End Unregistered.

(** C2.  A caller without a record in the user store gets [Unauthorized] from
    every method other than [createUser], whatever the arguments, and neither
    storage changes. *)
Theorem unregistered_caller_is_unauthorized (call : Call) (st : State) :
  userStorage st !! ic_caller call = None ->
  rejects (getMe call st) KUnauthorized st
  ∧ (∀ payload, rejects (updateMe call payload st) KUnauthorized st)
  ∧ (∀ payload, rejects (createTask call payload st) KUnauthorized st)
  ∧ rejects (getMyTasks call st) KUnauthorized st
  ∧ (∀ id payload, rejects (updateMyTask call id payload st) KUnauthorized st)
  ∧ (∀ id, rejects (toggleMyTask call id st) KUnauthorized st)
  ∧ (∀ id, rejects (deleteMyTask call id st) KUnauthorized st).
Proof.
  intros no_record.
  repeat split; intros;
    rewrite ?getMe_unregistered, ?updateMe_unregistered,
      ?createTask_unregistered, ?getMyTasks_unregistered,
      ?updateMyTask_unregistered, ?toggleMyTask_unregistered,
      ?deleteMyTask_unregistered by done;
    done.
Qed.

(** ** The methods, guard by guard *)

Section Registered.
Variables (call : Call) (st : State).
Hypothesis registered : is_Some (userStorage st !! ic_caller call).

Lemma registered_guard : negb (isUserExists st (ic_caller call)) = false.
Proof using registered.
  apply negb_false_iff. by apply isUserExists_true.
Qed.

Lemma createTask_no_title payload :
  TaskPayload_title payload = [] ->
  createTask call payload st = (Err (BadRequest Msg.required_title), st).
Proof using registered.
  intros E. unfold createTask. by rewrite registered_guard, E.
Qed.

Lemma createTask_ok payload :
  TaskPayload_title payload ≠ [] ->
  createTask call payload st =
    (Ok (created call payload),
     set_tasks st (<[uuidv4 call := created call payload]> (taskStorage st))).
Proof using registered.
  intros E%falsy_false. unfold createTask. by rewrite registered_guard, E.
Qed.

Lemma getMyTasks_ok :
  getMyTasks call st = (Ok (tasks_of (ic_caller call) st), st).
Proof using registered. unfold getMyTasks. by rewrite registered_guard. Qed.

Lemma updateMyTask_no_title id payload :
  TaskPayload_title payload = [] ->
  updateMyTask call id payload st = (Err (BadRequest Msg.required_title), st).
Proof using registered.
  intros E. unfold updateMyTask. by rewrite registered_guard, E.
Qed.

Lemma updateMyTask_not_found id payload :
  TaskPayload_title payload ≠ [] ->
  taskStorage st !! id = None ->
  updateMyTask call id payload st = (Err (NotFound (Msg.task_not_found id)), st).
Proof using registered.
  intros E%falsy_false M%isTaskExists_false. unfold updateMyTask.
  by rewrite registered_guard, E, M.
Qed.

Lemma updateMyTask_forbidden id payload task :
  TaskPayload_title payload ≠ [] ->
  taskStorage st !! id = Some task ->
  Task_owner task ≠ ic_caller call ->
  updateMyTask call id payload st = (Err (Forbidden Msg.not_owner), st).
Proof using registered.
  intros E%falsy_false M O. unfold updateMyTask.
  rewrite registered_guard, E, (isTaskExists_Some _ _ _ M), M. simpl.
  by rewrite owner_check_true.
Qed.

Lemma updateMyTask_ok id payload task :
  TaskPayload_title payload ≠ [] ->
  taskStorage st !! id = Some task ->
  Task_owner task = ic_caller call ->
  updateMyTask call id payload st =
    (Ok (updated task payload (ic_time call)),
     set_tasks st (<[Task_id task := updated task payload (ic_time call)]>
                     (taskStorage st))).
Proof using registered.
  intros E%falsy_false M O. unfold updateMyTask.
  rewrite registered_guard, E, (isTaskExists_Some _ _ _ M), M. simpl.
  by rewrite owner_check_false.
Qed.

Lemma toggleMyTask_not_found id :
  taskStorage st !! id = None ->
  toggleMyTask call id st = (Err (NotFound (Msg.task_not_found id)), st).
Proof using registered.
  intros M%isTaskExists_false. unfold toggleMyTask.
  by rewrite registered_guard, M.
Qed.

Lemma toggleMyTask_forbidden id task :
  taskStorage st !! id = Some task ->
  Task_owner task ≠ ic_caller call ->
  toggleMyTask call id st = (Err (Forbidden Msg.not_owner), st).
Proof using registered.
  intros M O. unfold toggleMyTask.
  rewrite registered_guard, (isTaskExists_Some _ _ _ M), M. simpl.
  by rewrite owner_check_true.
Qed.

Lemma toggleMyTask_ok id task :
  taskStorage st !! id = Some task ->
  Task_owner task = ic_caller call ->
  toggleMyTask call id st =
    (Ok (toggled task (ic_time call)),
     set_tasks st (<[Task_id task := toggled task (ic_time call)]>
                     (taskStorage st))).
Proof using registered.
  intros M O. unfold toggleMyTask.
  rewrite registered_guard, (isTaskExists_Some _ _ _ M), M. simpl.
  by rewrite owner_check_false.
Qed.

Lemma deleteMyTask_not_found id :
  taskStorage st !! id = None ->
  deleteMyTask call id st = (Err (NotFound (Msg.task_not_found id)), st).
Proof using registered.
  intros M%isTaskExists_false. unfold deleteMyTask.
  by rewrite registered_guard, M.
Qed.

Lemma deleteMyTask_forbidden id task :
  taskStorage st !! id = Some task ->
  Task_owner task ≠ ic_caller call ->
  deleteMyTask call id st = (Err (Forbidden Msg.not_owner), st).
Proof using registered.
  intros M O. unfold deleteMyTask.
  rewrite registered_guard, (isTaskExists_Some _ _ _ M), M. simpl.
  by rewrite owner_check_true.
Qed.

Lemma deleteMyTask_ok id task :
  taskStorage st !! id = Some task ->
  Task_owner task = ic_caller call ->
  deleteMyTask call id st =
    (Ok Msg.deleted, set_tasks st (delete (Task_id task) (taskStorage st))).
Proof using registered.
  intros M O. unfold deleteMyTask.
  rewrite registered_guard, (isTaskExists_Some _ _ _ M), M. simpl.
  by rewrite owner_check_false.
Qed.

End Registered.

Lemma unregistered_caller_is_unauthorized_witness :
  userStorage Sample.one_task !! Sample.carol = None
  ∧ rejects (getMyTasks (mkCall Sample.carol 9 []) Sample.one_task)
            KUnauthorized Sample.one_task
  ∧ rejects (deleteMyTask (mkCall Sample.carol 9 []) Sample.task_id
               Sample.one_task)
            KUnauthorized Sample.one_task.
Proof.
  assert (N : userStorage Sample.one_task
                !! ic_caller (mkCall Sample.carol 9 []) = None)
    by (vm_compute; reflexivity).
  pose proof (unregistered_caller_is_unauthorized _ _ N) as (_&_&_&G&_&_&D).
  exact (conj N (conj G (D Sample.task_id))).
Defined.

(** ** The ownership guard *)

(** C1 (as amended).  A registered caller who is not the owner of a stored
    task gets [Forbidden] from [toggleMyTask] and [deleteMyTask] on its id,
    and from [updateMyTask] when the payload has a title; with an empty title
    [updateMyTask] stops at the title check.  In every one of these calls both
    storages stay as they were, so the task is still stored, unchanged. *)
Theorem non_owner_is_forbidden (call : Call) (st : State) (id : text)
    (task : Task) :
  is_Some (userStorage st !! ic_caller call) ->
  taskStorage st !! id = Some task ->
  Task_owner task ≠ ic_caller call ->
  (∀ payload, TaskPayload_title payload ≠ [] ->
     rejects (updateMyTask call id payload st) KForbidden st)
  ∧ (∀ payload, TaskPayload_title payload = [] ->
     rejects (updateMyTask call id payload st) KBadRequest st)
  ∧ rejects (toggleMyTask call id st) KForbidden st
  ∧ rejects (deleteMyTask call id st) KForbidden st
  ∧ (∀ payload,
       taskStorage (updateMyTask call id payload st).2 !! id = Some task)
  ∧ taskStorage (toggleMyTask call id st).2 !! id = Some task
  ∧ taskStorage (deleteMyTask call id st).2 !! id = Some task.
Proof.
  intros R M O.
  assert (U : ∀ payload, (updateMyTask call id payload st).2 = st).
  { intros payload. destruct (decide (TaskPayload_title payload = [])).
    - by rewrite updateMyTask_no_title.
    - by erewrite updateMyTask_forbidden. }
  split_and!.
  - intros payload T. by erewrite updateMyTask_forbidden.
  - intros payload T. by rewrite updateMyTask_no_title.
  - by erewrite toggleMyTask_forbidden.
  - by erewrite deleteMyTask_forbidden.
  - intros payload. by rewrite U.
  - by erewrite toggleMyTask_forbidden.
  - by erewrite deleteMyTask_forbidden.
Qed.

Lemma non_owner_is_forbidden_witness :
  is_Some (userStorage Sample.one_task !! Sample.bob)
  ∧ taskStorage Sample.one_task !! Sample.task_id = Some Sample.buy_milk
  ∧ Task_owner Sample.buy_milk ≠ Sample.bob
  ∧ rejects (updateMyTask (mkCall Sample.bob 9 []) Sample.task_id
               Sample.new_title Sample.one_task)
            KForbidden Sample.one_task
  ∧ rejects (deleteMyTask (mkCall Sample.bob 9 []) Sample.task_id
               Sample.one_task)
            KForbidden Sample.one_task.
Proof.
  assert (R : is_Some (userStorage Sample.one_task
                         !! ic_caller (mkCall Sample.bob 9 [])))
    by (vm_compute; eauto).
  assert (M : taskStorage Sample.one_task !! Sample.task_id
              = Some Sample.buy_milk) by (vm_compute; reflexivity).
  assert (O : Task_owner Sample.buy_milk ≠ ic_caller (mkCall Sample.bob 9 []))
    by (vm_compute; discriminate).
  pose proof (non_owner_is_forbidden _ _ _ _ R M O) as (U&_&_&D&_&_&_).
  refine (conj R (conj M (conj O (conj (U Sample.new_title _) D)))).
  vm_compute; discriminate.
Defined.

(** C1 as stated fails for [updateMyTask]: Bob is registered and does not own
    Alice's task, and his update with an empty title is answered with
    [BadRequest], not [Forbidden]. *)
Lemma non_owner_update_without_title :
  is_Some (userStorage Sample.one_task !! Sample.bob)
  ∧ taskStorage Sample.one_task !! Sample.task_id = Some Sample.buy_milk
  ∧ Task_owner Sample.buy_milk ≠ Sample.bob
  ∧ (updateMyTask (mkCall Sample.bob 9 []) Sample.task_id Sample.no_title
       Sample.one_task).1 = Err (BadRequest Msg.required_title)
  ∧ ¬ fails_with
        (updateMyTask (mkCall Sample.bob 9 []) Sample.task_id Sample.no_title
           Sample.one_task).1 KForbidden.
Proof.
  split_and!.
  - vm_compute; eauto.
  - vm_compute; reflexivity.
  - vm_compute; discriminate.
  - vm_compute; reflexivity.
  - vm_compute; discriminate.
Qed.

(** ** The order of the checks *)

(** C3.  [updateMyTask] checks registration, then the title, then that the
    task exists, then ownership, and only then stores the update; the first
    check that fails decides the error.  [toggleMyTask] and [deleteMyTask]
    check registration, then existence, then ownership. *)
Theorem checks_run_in_order (call : Call) (st : State) (id : text) :
  let caller := ic_caller call in
  let stored := taskStorage st !! id in
  (∀ payload,
     let title := TaskPayload_title payload in
     let out := updateMyTask call id payload st in
     (userStorage st !! caller = None -> rejects out KUnauthorized st)
     ∧ (is_Some (userStorage st !! caller) -> title = [] ->
          rejects out KBadRequest st)
     ∧ (is_Some (userStorage st !! caller) -> title ≠ [] -> stored = None ->
          rejects out KNotFound st)
     ∧ (∀ task, is_Some (userStorage st !! caller) -> title ≠ [] ->
          stored = Some task -> Task_owner task ≠ caller ->
          rejects out KForbidden st)
     ∧ (∀ task, is_Some (userStorage st !! caller) -> title ≠ [] ->
          stored = Some task -> Task_owner task = caller ->
          out = (Ok (updated task payload (ic_time call)),
                 set_tasks st (<[Task_id task :=
                                   updated task payload (ic_time call)]>
                                 (taskStorage st)))))
  ∧ (let out := toggleMyTask call id st in
     (userStorage st !! caller = None -> rejects out KUnauthorized st)
     ∧ (is_Some (userStorage st !! caller) -> stored = None ->
          rejects out KNotFound st)
     ∧ (∀ task, is_Some (userStorage st !! caller) -> stored = Some task ->
          Task_owner task ≠ caller -> rejects out KForbidden st)
     ∧ (∀ task, is_Some (userStorage st !! caller) -> stored = Some task ->
          Task_owner task = caller ->
          out = (Ok (toggled task (ic_time call)),
                 set_tasks st (<[Task_id task := toggled task (ic_time call)]>
                                 (taskStorage st)))))
  ∧ (let out := deleteMyTask call id st in
     (userStorage st !! caller = None -> rejects out KUnauthorized st)
     ∧ (is_Some (userStorage st !! caller) -> stored = None ->
          rejects out KNotFound st)
     ∧ (∀ task, is_Some (userStorage st !! caller) -> stored = Some task ->
          Task_owner task ≠ caller -> rejects out KForbidden st)
     ∧ (∀ task, is_Some (userStorage st !! caller) -> stored = Some task ->
          Task_owner task = caller ->
          out = (Ok Msg.deleted,
                 set_tasks st (delete (Task_id task) (taskStorage st))))).
Proof.
  cbv zeta. split_and!.
  - intros payload. split_and!.
    + intros N. by rewrite updateMyTask_unregistered.
    + intros R T. by rewrite updateMyTask_no_title.
    + intros R T M. by rewrite updateMyTask_not_found.
    + intros task R T M O. by erewrite updateMyTask_forbidden.
    + intros task R T M O. by apply updateMyTask_ok.
  - intros N. by rewrite toggleMyTask_unregistered.
  - intros R M. by rewrite toggleMyTask_not_found.
  - intros task R M O. by erewrite toggleMyTask_forbidden.
  - intros task R M O. by apply toggleMyTask_ok.
  - intros N. by rewrite deleteMyTask_unregistered.
  - intros R M. by rewrite deleteMyTask_not_found.
  - intros task R M O. by erewrite deleteMyTask_forbidden.
  - intros task R M O. by apply deleteMyTask_ok.
Qed.

Lemma checks_run_in_order_witness :
  let call := mkCall Sample.bob 9 [] in
  let missing := lit "00000000-0000-4000-8000-000000000000" in
  rejects (updateMyTask call missing Sample.no_title Sample.one_task)
          KBadRequest Sample.one_task
  ∧ rejects (updateMyTask call missing Sample.new_title Sample.one_task)
            KNotFound Sample.one_task
  ∧ rejects (updateMyTask call Sample.task_id Sample.new_title Sample.one_task)
            KForbidden Sample.one_task
  ∧ rejects (toggleMyTask call missing Sample.one_task)
            KNotFound Sample.one_task
  ∧ rejects (deleteMyTask call Sample.task_id Sample.one_task)
            KForbidden Sample.one_task.
Proof.
  intros call missing.
  assert (R : is_Some (userStorage Sample.one_task !! ic_caller call))
    by (vm_compute; eauto).
  assert (T : TaskPayload_title Sample.new_title ≠ [])
    by (vm_compute; discriminate).
  assert (M : taskStorage Sample.one_task !! Sample.task_id
              = Some Sample.buy_milk) by (vm_compute; reflexivity).
  assert (N : taskStorage Sample.one_task !! missing = None)
    by (vm_compute; reflexivity).
  assert (O : Task_owner Sample.buy_milk ≠ ic_caller call)
    by (vm_compute; discriminate).
  destruct (checks_run_in_order call Sample.one_task missing)
    as (U & (_ & Tn & _) & _).
  destruct (U Sample.no_title) as (_ & Ub & _).
  destruct (U Sample.new_title) as (_ & _ & Un & _).
  destruct (checks_run_in_order call Sample.one_task Sample.task_id)
    as (U' & _ & (_ & _ & Df & _)).
  destruct (U' Sample.new_title) as (_ & _ & _ & Uf & _).
  split_and!.
  - exact (Ub R eq_refl).
  - exact (Un R T N).
  - exact (Uf _ R T M O).
  - exact (Tn R N).
  - exact (Df _ R M O).
Defined.

(** ** Invariants of the storages *)

(** Splits a method on the outcome of every guard it evaluates. *)
Ltac by_guards :=
  repeat match goal with
         | |- context [ if ?b then _ else _ ] => destruct b eqn:?
         | |- context [ get_Some ?o _ _ ] => destruct o eqn:?; simpl
         end.

Lemma step_users_keyed call req st :
  users_keyed_by_id st -> users_keyed_by_id (step call req st).
Proof.
  unfold users_keyed_by_id. intros I.
  destruct req; simpl;
    unfold createUser, getMe, updateMe, createTask, getMyTasks, updateMyTask,
      toggleMyTask, deleteMyTask;
    by_guards; simpl; try done.
  - by apply map_Forall_insert_2.
  - by apply map_Forall_insert_2.
Qed.

Lemma step_tasks_keyed call req st :
  tasks_keyed_by_id st -> tasks_keyed_by_id (step call req st).
Proof.
  unfold tasks_keyed_by_id. intros I.
  destruct req; simpl;
    unfold createUser, getMe, updateMe, createTask, getMyTasks, updateMyTask,
      toggleMyTask, deleteMyTask;
    by_guards; simpl; try done.
  - by apply map_Forall_insert_2.
  - by apply map_Forall_insert_2.
  - by apply map_Forall_insert_2.
  - by apply map_Forall_delete.
Qed.

Lemma step_registered call req st who :
  is_Some (userStorage st !! who) ->
  is_Some (userStorage (step call req st) !! who).
Proof.
  intros R.
  destruct req; simpl;
    unfold createUser, getMe, updateMe, createTask, getMyTasks, updateMyTask,
      toggleMyTask, deleteMyTask;
    by_guards; simpl; try done.
  - rewrite lookup_insert. by case_decide.
  - rewrite lookup_insert. by case_decide.
Qed.

Lemma step_owners_registered call req st :
  owners_registered st -> owners_registered (step call req st).
Proof.
  unfold owners_registered. intros I.
  assert (W : ∀ m : gmap Principal User,
            (∀ who, is_Some (userStorage st !! who) -> is_Some (m !! who)) ->
            map_Forall (fun _ task => is_Some (m !! Task_owner task))
                       (taskStorage st)).
  { intros m Hm. eapply map_Forall_impl; [ exact I | ]. simpl. eauto. }
  destruct req; simpl;
    unfold createUser, getMe, updateMe, createTask, getMyTasks, updateMyTask,
      toggleMyTask, deleteMyTask;
    by_guards; simpl; try done.
  - apply W. intros who R. rewrite lookup_insert. by case_decide.
  - apply W. intros who R. rewrite lookup_insert. by case_decide.
  - apply map_Forall_insert_2; [ | done ]. simpl.
    by apply isUserExists_true, negb_false_iff.
  - apply map_Forall_insert_2; [ | done ]. simpl. eapply I; eauto.
  - apply map_Forall_insert_2; [ | done ]. simpl. eapply I; eauto.
  - by apply map_Forall_delete.
Qed.

(** In every state the canister can be in, tasks and users are stored under
    their own ids and every task's owner is registered. *)
Lemma reachable_invariants st :
  reachable st ->
  tasks_keyed_by_id st ∧ users_keyed_by_id st ∧ owners_registered st.
Proof.
  induction 1 as [ | call req st _ (T & U & O) ].
  - split_and!; apply map_Forall_empty.
  - split_and!;
      auto using step_tasks_keyed, step_users_keyed, step_owners_registered.
Qed.

(** ** Registration *)

Lemma createUser_registered call payload st :
  is_Some (userStorage st !! ic_caller call) ->
  rejects (createUser call payload st) KBadRequest st.
Proof.
  intros R%isUserExists_true. unfold createUser. rewrite R.
  by by_guards.
Qed.

Lemma createUser_Ok_inv call payload st user st' :
  createUser call payload st = (Ok user, st') ->
  userStorage st !! ic_caller call = None
  ∧ user = mkUser (ic_caller call) (UserPayload_name payload)
             (UserPayload_email payload) (ic_time call) (ic_time call)
  ∧ st' = set_users st (<[ic_caller call := user]> (userStorage st)).
Proof.
  unfold createUser.
  destruct (falsy _ || falsy _); [ done | ].
  destruct (negb _); [ done | ].
  destruct (isUserExists _ _) eqn:R; [ done | ].
  apply isUserExists_false in R. simpl. intros [= <- <-]. done.
Qed.

Lemma filter_none {A} (P : A -> Prop) `{∀ x, Decision (P x)} (l : list A) :
  Forall (fun x => ¬ P x) l -> filter P l = [].
Proof.
  induction 1 as [ | x l N _ IH ]; [ done | ].
  by rewrite filter_cons_False.
Qed.

(** A map has exactly one entry under a key it binds. *)
Lemma records_of_lookup `{Countable K} {V} (m : gmap K V) k v :
  m !! k = Some v ->
  filter (fun kv => kv.1 = k) (map_to_list m) = [(k, v)].
Proof.
  intros M. apply Permutation_singleton_r.
  rewrite <- (insert_delete_id m k v M) at 1.
  rewrite map_to_list_insert by apply lookup_delete_eq.
  rewrite filter_cons_True by done.
  apply Permutation_skip. 
  rewrite filter_none; [ done | ].
  apply Forall_forall. intros [k' v'] In%elem_of_map_to_list. simpl.
  intros ->. by rewrite lookup_delete_eq in In.
Qed.

(** C4.  Once [createUser] has succeeded for an identity, a second
    [createUser] by the same identity is answered with [BadRequest] whatever
    its payload, and afterwards the user store has exactly one record under
    that identity: the one the first call stored. *)
Theorem createUser_twice (call1 call2 : Call) (payload1 payload2 : UserPayload)
    (st st1 : State) (user : User) :
  createUser call1 payload1 st = (Ok user, st1) ->
  ic_caller call2 = ic_caller call1 ->
  let out := createUser call2 payload2 st1 in
  rejects out KBadRequest st1
  ∧ userStorage out.2 !! ic_caller call1 = Some user
  ∧ filter (fun kv => kv.1 = ic_caller call1) (map_to_list (userStorage out.2))
    = [(ic_caller call1, user)].
Proof.
  intros (_ & _ & ->)%createUser_Ok_inv Same. cbv zeta.
  set (st1 := set_users st (<[ic_caller call1:=user]> (userStorage st))).
  assert (M : userStorage st1 !! ic_caller call1 = Some user)
    by apply lookup_insert_eq.
  destruct (createUser_registered call2 payload2 st1) as [F E].
  { rewrite Same, M. eauto. }
  split; [ done | ]. rewrite E. split; [ done | ].
  by apply records_of_lookup.
Qed.

Lemma createUser_twice_witness :
  let call1 := mkCall Sample.carol 7 [] in
  let call2 := mkCall Sample.carol 8 [] in
  let payload1 := mkUserPayload (lit "Carol") (lit "carol@x.com") in
  let payload2 := mkUserPayload (lit "Caroline") (lit "c@y.org") in
  let user := mkUser Sample.carol (lit "Carol") (lit "carol@x.com") 7 7 in
  let st1 := step call1 (CreateUser payload1) Sample.one_task in
  createUser call1 payload1 Sample.one_task = (Ok user, st1)
  ∧ rejects (createUser call2 payload2 st1) KBadRequest st1
  ∧ userStorage (createUser call2 payload2 st1).2 !! Sample.carol = Some user.
Proof.
  intros call1 call2 payload1 payload2 user st1.
  assert (C : createUser call1 payload1 Sample.one_task = (Ok user, st1))
    by (vm_compute; reflexivity).
  assert (S : ic_caller call2 = ic_caller call1) by reflexivity.
  pose proof (createUser_twice call1 call2 payload1 payload2 _ _ _ C S)
    as (R & M & _).
  exact (conj C (conj R M)).
Defined.

(** Registration is for good: whatever messages follow, a registered identity
    stays registered, so [createUser] keeps answering [BadRequest]. *)
Lemma createUser_after_registration call payload st :
  is_Some (userStorage st !! ic_caller call) ->
  ∀ msgs : list (Call * Request),
    let st' := foldl (fun s m => step m.1 m.2 s) st msgs in
    rejects (createUser call payload st') KBadRequest st'.
Proof.
  intros R msgs. revert st R.
  induction msgs as [ | [c r] msgs IH ]; intros st R; simpl.
  - by apply createUser_registered.
  - apply IH. by apply step_registered.
Qed.

(** ** Listing the tasks of a caller *)

Lemma values_insert `{Countable K} {V} (m : gmap K V) k v :
  values (<[k:=v]> m) ≡ₚ v :: values (delete k m).
Proof.
  unfold values. rewrite <- insert_delete_eq.
  by rewrite map_to_list_insert by apply lookup_delete_eq.
Qed.

Lemma values_lookup `{Countable K} {V} (m : gmap K V) k v :
  m !! k = Some v -> values m ≡ₚ v :: values (delete k m).
Proof.
  intros M. rewrite <- (insert_id m k v M) at 1. apply values_insert.
Qed.

Lemma elem_of_values `{Countable K} {V} (m : gmap K V) v :
  v ∈ values m ↔ ∃ k, m !! k = Some v.
Proof.
  unfold values. rewrite list_elem_of_fmap. split.
  - intros ([k v'] & -> & In%elem_of_map_to_list). eauto.
  - intros [k M]. exists (k, v). by rewrite elem_of_map_to_list.
Qed.

Lemma tasks_of_insert who st id task :
  tasks_of who (set_tasks st (<[id:=task]> (taskStorage st)))
  ≡ₚ (if decide (Task_owner task = who) then [task] else [])
     ++ tasks_of who (set_tasks st (delete id (taskStorage st))).
Proof.
  unfold tasks_of. simpl. rewrite values_insert, filter_cons.
  case_decide as O; rewrite toText_inj in O;
    case_decide; done.
Qed.

Lemma tasks_of_delete_sub who st id :
  tasks_of who (set_tasks st (delete id (taskStorage st)))
  ⊆+ tasks_of who st.
Proof.
  unfold tasks_of. simpl. destruct (taskStorage st !! id) as [old|] eqn:M.
  - rewrite (values_lookup (taskStorage st) id old M), filter_cons.
    case_decide; [ by apply submseteq_cons | done ].
  - by rewrite delete_id.
Qed.

Lemma elem_of_tasks_of who st task :
  task ∈ tasks_of who st
  ↔ Task_owner task = who ∧ ∃ id, taskStorage st !! id = Some task.
Proof.
  unfold tasks_of. by rewrite list_elem_of_filter, toText_inj, elem_of_values.
Qed.

(** ** Creating a task *)

(** C5.  A registered caller who creates a task with a title gets back a task
    that is not completed, is owned by the caller and has equal creation and
    update times; the caller's next listing consists of that task and of tasks
    that were already listed before, with no other new task.  When the id is
    new to the store the listing is the old one plus the task, and for a
    caller without earlier tasks it is that task alone. *)
Theorem createTask_then_getMyTasks (call call' : Call) (payload : TaskPayload)
    (st : State) :
  is_Some (userStorage st !! ic_caller call) ->
  TaskPayload_title payload ≠ [] ->
  ic_caller call' = ic_caller call ->
  ∃ task st' listing,
    createTask call payload st = (Ok task, st')
    ∧ Task_isCompleted task = false
    ∧ Task_owner task = ic_caller call
    ∧ Task_createdAt task = Task_updatedAt task
    ∧ Task_title task = TaskPayload_title payload
    ∧ Task_description task = TaskPayload_description payload
    ∧ getMyTasks call' st' = (Ok listing, st')
    ∧ task ∈ listing
    ∧ (∀ other, other ∈ listing ->
         other = task ∨ other ∈ tasks_of (ic_caller call) st)
    ∧ (taskStorage st !! uuidv4 call = None ->
         listing ≡ₚ task :: tasks_of (ic_caller call) st)
    ∧ (tasks_of (ic_caller call) st = [] -> listing = [task]).
Proof.
  intros R T Same.
  set (task := created call payload).
  set (st' := set_tasks st (<[uuidv4 call := task]> (taskStorage st))).
  assert (L : tasks_of (ic_caller call) st'
              ≡ₚ task :: tasks_of (ic_caller call)
                           (set_tasks st (delete (uuidv4 call) (taskStorage st)))).
  { unfold st'. rewrite tasks_of_insert. by rewrite decide_True. }
  exists task, st', (tasks_of (ic_caller call) st').
  split_and!; try done.
  - by apply createTask_ok.
  - rewrite <- Same. by apply getMyTasks_ok; rewrite Same.
  - rewrite L. by left.
  - intros other. rewrite L, elem_of_cons. intros [ -> | In ]; [ by left | ].
    right. by eapply elem_of_submseteq, tasks_of_delete_sub.
  - intros Fresh. rewrite L, delete_id by done. by rewrite set_tasks_id.
  - intros Empty. apply Permutation_singleton_r. rewrite L.
    apply Permutation_skip.
    pose proof (tasks_of_delete_sub (ic_caller call) st (uuidv4 call)) as Sub.
    rewrite Empty in Sub. by apply submseteq_nil_r in Sub as ->.
Qed.

Lemma createTask_then_getMyTasks_witness :
  let call := mkCall Sample.bob 5 (lit "1b9d6bcd-bbfd-4b2d-9b5d-ab8dfbbd4bed") in
  let call' := mkCall Sample.bob 6 [] in
  let payload := mkTaskPayload (lit "T") (lit "D") in
  is_Some (userStorage Sample.one_task !! Sample.bob)
  ∧ TaskPayload_title payload ≠ []
  ∧ ∃ task st' listing,
      createTask call payload Sample.one_task = (Ok task, st')
      ∧ Task_isCompleted task = false
      ∧ Task_owner task = Sample.bob
      ∧ Task_createdAt task = Task_updatedAt task
      ∧ getMyTasks call' st' = (Ok listing, st')
      ∧ task ∈ listing.
Proof.
  intros call call' payload.
  assert (R : is_Some (userStorage Sample.one_task !! ic_caller call))
    by (vm_compute; eauto).
  assert (T : TaskPayload_title payload ≠ []) by (vm_compute; discriminate).
  assert (S : ic_caller call' = ic_caller call) by reflexivity.
  destruct (createTask_then_getMyTasks call call' payload _ R T S)
    as (task & st' & listing & C & F & O & D & _ & _ & G & In & _).
  refine (conj R (conj T _)). exists task, st', listing.
  exact (conj C (conj F (conj O (conj D (conj G In))))).
Defined.

(** The scenario of the claim on concrete data: Bob, who has no task yet,
    creates "T"/"D" and then lists exactly that task, while Alice's listing is
    what it was. *)
Example createTask_T_D :
  let call := mkCall Sample.bob 5 (lit "1b9d6bcd-bbfd-4b2d-9b5d-ab8dfbbd4bed") in
  let task := mkTask (uuidv4 call) (lit "T") (lit "D") false Sample.bob 5 5 in
  let out := createTask call (mkTaskPayload (lit "T") (lit "D")) Sample.one_task in
  out.1 = Ok task
  ∧ (getMyTasks (mkCall Sample.bob 6 []) out.2).1 = Ok [task]
  ∧ (getMyTasks (mkCall Sample.alice 6 []) out.2).1 = Ok [Sample.buy_milk].
Proof. vm_compute. done. Qed.

(** C8.  [createTask] stores the new task under the generated id whether or
    not the id is bound already: every other entry of the task store, and the
    user store, stay as they were; an entry already under that id is
    replaced, whoever owns it, and the store does not grow, so that the
    earlier task disappears from its owner's listing.  Only when the id is
    new does the store gain an entry. *)
Theorem createTask_upserts (call : Call) (payload : TaskPayload) (st : State) :
  is_Some (userStorage st !! ic_caller call) ->
  TaskPayload_title payload ≠ [] ->
  let out := createTask call payload st in
  let task := created call payload in
  out.1 = Ok task
  ∧ taskStorage out.2 = <[uuidv4 call := task]> (taskStorage st)
  ∧ userStorage out.2 = userStorage st
  ∧ (∀ id, id ≠ uuidv4 call -> taskStorage out.2 !! id = taskStorage st !! id)
  ∧ taskStorage out.2 !! uuidv4 call = Some task
  ∧ (∀ old, taskStorage st !! uuidv4 call = Some old ->
       size (taskStorage out.2) = size (taskStorage st)
       ∧ (old ≠ task -> taskStorage out.2 !! uuidv4 call ≠ Some old)
       ∧ (tasks_keyed_by_id st -> Task_owner old ≠ ic_caller call ->
            old ∉ tasks_of (Task_owner old) out.2))
  ∧ (taskStorage st !! uuidv4 call = None ->
       size (taskStorage out.2) = S (size (taskStorage st))).
Proof.
  intros R T. cbv zeta. rewrite (createTask_ok _ _ R _ T). simpl.
  split_and!; try done.
  - intros id N. by rewrite lookup_insert_ne.
  - apply lookup_insert_eq.
  - intros old M. split_and!.
    + by eapply map_size_insert_Some.
    + rewrite lookup_insert_eq. congruence.
    + intros I O (_ & id & L)%elem_of_tasks_of. simpl in L.
      rewrite lookup_insert in L. case_decide as E.
      * injection L as <-. done.
      * apply I in L. apply I in M. congruence.
  - by apply map_size_insert_None.
Qed.

Lemma createTask_upserts_witness :
  let call := mkCall Sample.bob 5 Sample.task_id in
  let payload := mkTaskPayload (lit "Walk the dog") [] in
  let out := createTask call payload Sample.one_task in
  is_Some (userStorage Sample.one_task !! Sample.bob)
  ∧ TaskPayload_title payload ≠ []
  ∧ taskStorage Sample.one_task !! Sample.task_id = Some Sample.buy_milk
  ∧ out.1 = Ok (created call payload)
  ∧ taskStorage out.2 !! Sample.task_id = Some (created call payload)
  ∧ size (taskStorage out.2) = size (taskStorage Sample.one_task).
Proof.
  intros call payload out.
  assert (R : is_Some (userStorage Sample.one_task !! ic_caller call))
    by (vm_compute; eauto).
  assert (T : TaskPayload_title payload ≠ []) by (vm_compute; discriminate).
  assert (M : taskStorage Sample.one_task !! uuidv4 call
              = Some Sample.buy_milk) by (vm_compute; reflexivity).
  destruct (createTask_upserts call payload _ R T)
    as (O & _ & _ & _ & L & Old & _).
  destruct (Old _ M) as (Sz & _ & _).
  exact (conj R (conj T (conj M (conj O (conj L Sz))))).
Defined.

(** A repeated id at work: Bob's new task arrives under the id of Alice's
    task.  The call answers [Ok], Alice's task is gone from her listing, and
    Bob lists the new task. *)
Example createTask_repeated_id :
  let call := mkCall Sample.bob 5 Sample.task_id in
  let payload := mkTaskPayload (lit "Walk the dog") [] in
  let out := createTask call payload Sample.one_task in
  (getMyTasks (mkCall Sample.alice 4 []) Sample.one_task).1
  = Ok [Sample.buy_milk]
  ∧ out.1 = Ok (mkTask Sample.task_id (lit "Walk the dog") [] false
                       Sample.bob 5 5)
  ∧ (getMyTasks (mkCall Sample.alice 6 []) out.2).1 = Ok []
  ∧ (getMyTasks (mkCall Sample.bob 6 []) out.2).1
    = Ok [mkTask Sample.task_id (lit "Walk the dog") [] false Sample.bob 5 5].
Proof. vm_compute. done. Qed.

(** ** Deleting a task *)

Lemma deleteMyTask_at_key call st id task :
  tasks_keyed_by_id st ->
  is_Some (userStorage st !! ic_caller call) ->
  taskStorage st !! id = Some task ->
  Task_owner task = ic_caller call ->
  deleteMyTask call id st =
    (Ok Msg.deleted, set_tasks st (delete id (taskStorage st))).
Proof.
  intros I R M O. rewrite (deleteMyTask_ok _ _ R _ _ M O).
  by rewrite (I _ _ M).
Qed.

Lemma no_task_with_deleted_id who st id :
  tasks_keyed_by_id st ->
  ∀ other, other ∈ tasks_of who (set_tasks st (delete id (taskStorage st))) ->
           Task_id other ≠ id.
Proof.
  intros I other (_ & k & L)%elem_of_tasks_of. simpl in L.
  apply lookup_delete_Some in L as [N L]. by rewrite (I _ _ L).
Qed.

(** C6 (as amended).  In a state the canister can be in, a registered owner's
    [deleteMyTask] succeeds and leaves no entry under the id.  The owner's
    next listing has no task with that id, and for every registered caller
    [toggleMyTask] and [deleteMyTask] on the id answer [NotFound], as does
    [updateMyTask] when the payload has a title; with an empty title
    [updateMyTask] stops at the title check. *)
Theorem deleteMyTask_removes (call : Call) (st : State) (id : text)
    (task : Task) :
  reachable st ->
  is_Some (userStorage st !! ic_caller call) ->
  taskStorage st !! id = Some task ->
  Task_owner task = ic_caller call ->
  ∃ st',
    deleteMyTask call id st = (Ok Msg.deleted, st')
    ∧ taskStorage st' !! id = None
    ∧ (∀ call', ic_caller call' = ic_caller call ->
         ∃ listing, getMyTasks call' st' = (Ok listing, st')
                    ∧ (task ∉ listing)
                    ∧ (∀ other, other ∈ listing -> Task_id other ≠ id))
    ∧ (∀ call', is_Some (userStorage st' !! ic_caller call') ->
         (∀ payload, TaskPayload_title payload ≠ [] ->
            rejects (updateMyTask call' id payload st') KNotFound st')
         ∧ (∀ payload, TaskPayload_title payload = [] ->
            rejects (updateMyTask call' id payload st') KBadRequest st')
         ∧ rejects (toggleMyTask call' id st') KNotFound st'
         ∧ rejects (deleteMyTask call' id st') KNotFound st').
Proof.
  intros (I & _ & _)%reachable_invariants R M O.
  set (st' := set_tasks st (delete id (taskStorage st))).
  assert (Gone : taskStorage st' !! id = None) by apply lookup_delete_eq.
  exists st'. split_and!.
  - by eapply deleteMyTask_at_key.
  - done.
  - intros call' Same. exists (tasks_of (ic_caller call') st').
    assert (R' : is_Some (userStorage st' !! ic_caller call')).
    { by rewrite Same. }
    pose proof (no_task_with_deleted_id (ic_caller call') st id I) as Ids.
    split_and!; [ by apply getMyTasks_ok | | done ].
    intros In. apply (Ids _ In). apply (I _ _ M).
  - intros call' R'. split_and!.
    + intros payload T. by rewrite updateMyTask_not_found.
    + intros payload T. by rewrite updateMyTask_no_title.
    + by rewrite toggleMyTask_not_found.
    + by rewrite deleteMyTask_not_found.
Qed.

Lemma reachable_one_task : reachable Sample.one_task.
Proof. repeat constructor. Qed.

Lemma deleteMyTask_removes_witness :
  let call := mkCall Sample.alice 9 [] in
  reachable Sample.one_task
  ∧ is_Some (userStorage Sample.one_task !! Sample.alice)
  ∧ taskStorage Sample.one_task !! Sample.task_id = Some Sample.buy_milk
  ∧ Task_owner Sample.buy_milk = Sample.alice
  ∧ ∃ st',
      deleteMyTask call Sample.task_id Sample.one_task = (Ok Msg.deleted, st')
      ∧ taskStorage st' !! Sample.task_id = None
      ∧ ∃ listing, getMyTasks call st' = (Ok listing, st')
                   ∧ Sample.buy_milk ∉ listing.
Proof.
  intros call.
  assert (R : is_Some (userStorage Sample.one_task !! ic_caller call))
    by (vm_compute; eauto).
  assert (M : taskStorage Sample.one_task !! Sample.task_id
              = Some Sample.buy_milk) by (vm_compute; reflexivity).
  assert (O : Task_owner Sample.buy_milk = ic_caller call) by reflexivity.
  destruct (deleteMyTask_removes call _ _ _ reachable_one_task R M O)
    as (st' & D & Gone & Listing & _).
  destruct (Listing call eq_refl) as (listing & G & Out & _).
  refine (conj reachable_one_task (conj R (conj M (conj O _)))).
  exists st'. refine (conj D (conj Gone _)).
  exists listing. exact (conj G Out).
Defined.

(** C6 as stated fails for [updateMyTask]: after Alice has deleted her task,
    her update of that id with an empty title is answered with [BadRequest],
    not [NotFound]. *)
Lemma update_after_delete_without_title :
  let call := mkCall Sample.alice 9 [] in
  let call' := mkCall Sample.alice 10 [] in
  let deleted := deleteMyTask call Sample.task_id Sample.one_task in
  let out := updateMyTask call' Sample.task_id Sample.no_title deleted.2 in
  reachable Sample.one_task
  ∧ is_Some (userStorage Sample.one_task !! Sample.alice)
  ∧ taskStorage Sample.one_task !! Sample.task_id = Some Sample.buy_milk
  ∧ Task_owner Sample.buy_milk = Sample.alice
  ∧ deleted.1 = Ok Msg.deleted
  ∧ out.1 = Err (BadRequest Msg.required_title)
  ∧ ¬ fails_with out.1 KNotFound.
Proof.
  cbv zeta. split_and!.
  - apply reachable_one_task.
  - vm_compute; eauto.
  - vm_compute; reflexivity.
  - reflexivity.
  - vm_compute; reflexivity.
  - vm_compute; reflexivity.
  - vm_compute; discriminate.
Qed.

(** ** Toggling a task *)

Lemma toggled_toggled task now now' :
  toggled (toggled task now) now' =
    mkTask (Task_id task) (Task_title task) (Task_description task)
           (Task_isCompleted task) (Task_owner task) (Task_createdAt task) now'.
Proof. unfold toggled. simpl. by rewrite negb_involutive. Qed.

(** C7.  In a state the canister can be in, a registered owner toggling an
    uncompleted task twice gets it back uncompleted: the first call answers
    with [isCompleted = true], the second with [isCompleted = false], and the
    store ends with the original record but for [updatedAt].  Each call stamps
    [updatedAt] with its own time, so when the time of the first call is later
    than the stored stamp and the time of the second call is later than that
    of the first, [updatedAt] grows strictly at both calls. *)
Theorem toggleMyTask_twice (call1 call2 : Call) (st : State) (id : text)
    (task : Task) :
  reachable st ->
  is_Some (userStorage st !! ic_caller call1) ->
  taskStorage st !! id = Some task ->
  Task_owner task = ic_caller call1 ->
  Task_isCompleted task = false ->
  ic_caller call2 = ic_caller call1 ->
  ∃ task1 st1 task2 st2,
    toggleMyTask call1 id st = (Ok task1, st1)
    ∧ toggleMyTask call2 id st1 = (Ok task2, st2)
    ∧ Task_isCompleted task1 = true
    ∧ Task_isCompleted task2 = false
    ∧ taskStorage st1 !! id = Some task1
    ∧ taskStorage st2 !! id = Some task2
    ∧ task2 = mkTask (Task_id task) (Task_title task) (Task_description task)
                     false (Task_owner task) (Task_createdAt task)
                     (ic_time call2)
    ∧ Task_updatedAt task1 = ic_time call1
    ∧ (Task_updatedAt task < ic_time call1 -> ic_time call1 < ic_time call2 ->
         Task_updatedAt task < Task_updatedAt task1
         ∧ Task_updatedAt task1 < Task_updatedAt task2).
Proof.
  intros (I & _ & _)%reachable_invariants R M O F Same.
  set (task1 := toggled task (ic_time call1)).
  set (st1 := set_tasks st (<[id := task1]> (taskStorage st))).
  set (task2 := toggled task1 (ic_time call2)).
  set (st2 := set_tasks st1 (<[id := task2]> (taskStorage st1))).
  assert (K : Task_id task = id) by apply (I _ _ M).
  assert (M1 : taskStorage st1 !! id = Some task1) by apply lookup_insert_eq.
  assert (R1 : is_Some (userStorage st1 !! ic_caller call2)).
  { by rewrite Same. }
  exists task1, st1, task2, st2. split_and!.
  - rewrite (toggleMyTask_ok _ _ R _ _ M O). by rewrite K.
  - rewrite (toggleMyTask_ok _ _ R1 _ _ M1) by by rewrite Same.
    simpl. by rewrite K.
  - simpl. by rewrite F.
  - simpl. by rewrite F.
  - done.
  - apply lookup_insert_eq.
  - unfold task2, task1. by rewrite toggled_toggled, F.
  - done.
  - simpl. done.
Qed.

Lemma toggleMyTask_twice_witness :
  let call1 := mkCall Sample.alice 4 [] in
  let call2 := mkCall Sample.alice 5 [] in
  reachable Sample.one_task
  ∧ is_Some (userStorage Sample.one_task !! Sample.alice)
  ∧ taskStorage Sample.one_task !! Sample.task_id = Some Sample.buy_milk
  ∧ Task_owner Sample.buy_milk = Sample.alice
  ∧ Task_isCompleted Sample.buy_milk = false
  ∧ ∃ task1 st1 task2 st2,
      toggleMyTask call1 Sample.task_id Sample.one_task = (Ok task1, st1)
      ∧ toggleMyTask call2 Sample.task_id st1 = (Ok task2, st2)
      ∧ Task_isCompleted task2 = false
      ∧ Task_updatedAt Sample.buy_milk < Task_updatedAt task1
      ∧ Task_updatedAt task1 < Task_updatedAt task2.
Proof.
  intros call1 call2.
  assert (R : is_Some (userStorage Sample.one_task !! ic_caller call1))
    by (vm_compute; eauto).
  assert (M : taskStorage Sample.one_task !! Sample.task_id
              = Some Sample.buy_milk) by (vm_compute; reflexivity).
  assert (O : Task_owner Sample.buy_milk = ic_caller call1) by reflexivity.
  assert (F : Task_isCompleted Sample.buy_milk = false) by reflexivity.
  assert (S : ic_caller call2 = ic_caller call1) by reflexivity.
  destruct (toggleMyTask_twice call1 call2 _ _ _ reachable_one_task R M O F S)
    as (task1 & st1 & task2 & st2 & T1 & T2 & _ & F2 & _ & _ & _ & _ & Later).
  destruct Later as [L1 L2]; [ reflexivity | reflexivity | ].
  refine (conj reachable_one_task (conj R (conj M (conj O (conj F _))))).
  exists task1, st1, task2, st2.
  exact (conj T1 (conj T2 (conj F2 (conj L1 L2)))).
Defined.

(** ** The regex matcher *)

Lemma match_plus_spec a k s :
  match_plus a k s = true
  ↔ ∃ x rest, s = x ++ rest ∧ x ≠ []
              ∧ Forall (fun c => atom_match a c = true) x ∧ k rest = true.
Proof.
  induction s as [ | c s IH ]; simpl.
  - split; [ done | ]. intros (x & rest & E & N & _).
    symmetry in E. apply app_eq_nil in E as [-> _]. done.
  - rewrite andb_true_iff, orb_true_iff, IH. split.
    + intros [A [ (x & rest & -> & _ & F & Kr) | Kr ]].
      * exists (c :: x), rest. split_and!; try done. by constructor.
      * exists [c], s. split_and!; try done. by repeat constructor.
    + intros (x & rest & E & N & F & Kr).
      destruct x as [ | c' x ]; [ done | ]. simpl in E. injection E as -> ->.
      apply Forall_cons in F as [A F]. split; [ done | ].
      destruct x as [ | c'' x ]; [ by right | left ].
      exists (c'' :: x), rest. done.
Qed.

(** The backtracking matcher finds a match of [r] at the start of the input
    exactly when the input starts with a string [r] describes whose rest
    satisfies the continuation. *)
Lemma match_here_spec r k s :
  match_here r k s = true
  ↔ ∃ x rest, s = x ++ rest ∧ matches r x ∧ k rest = true.
Proof.
  revert k s. induction r as [ | [a | a] r IH ]; intros k s; simpl.
  - split.
    + intros Ks. exists [], s. split_and!; [ done | constructor | done ].
    + intros (x & rest & -> & Mx & Kr). by inversion Mx.
  - destruct s as [ | c s ].
    + split; [ done | ]. intros (x & rest & E & Mx & _).
      inversion Mx; subst. done.
    + rewrite andb_true_iff, IH. split.
      * intros [A (x & rest & -> & Mx & Kr)].
        exists (c :: x), rest. split_and!; [ done | by constructor | done ].
      * intros (x & rest & E & Mx & Kr). inversion Mx; subst.
        simpl in E. injection E as -> ->.
        split; [ done | ]. by eexists _, _.
  - rewrite match_plus_spec. split.
    + intros (x & rest & -> & N & F & (y & rest' & -> & My & Kr)%IH).
      exists (x ++ y), rest'. rewrite <- (assoc_L (++)).
      split_and!; [ done | by constructor | done ].
    + intros (x & rest & -> & Mx & Kr). inversion Mx; subst.
      eexists _, _. rewrite <- (assoc_L (++)).
      split_and!; [ done | done | done | ]. apply IH. eauto.
Qed.

(** [test] succeeds exactly when some substring of the input is described by
    the regex. *)
Lemma test_spec r s :
  test r s = true ↔ ∃ pre mid post, matches r mid ∧ s = pre ++ mid ++ post.
Proof.
  induction s as [ | c s IH ]; simpl; rewrite orb_true_iff, match_here_spec.
  - split.
    + intros [ (x & rest & E & Mx & _) | ? ]; [ | done ].
      exists [], x, rest. done.
    + intros (pre & mid & post & Mm & E). left.
      symmetry in E. apply app_eq_nil in E as [-> E]. eauto.
  - rewrite IH. split.
    + intros [ (x & rest & E & Mx & _) | (pre & mid & post & Mm & ->) ].
      * exists [], x, rest. done.
      * exists (c :: pre), mid, post. done.
    + intros (pre & mid & post & Mm & E). destruct pre as [ | c' pre ].
      * left. simpl in E. eauto.
      * right. simpl in E. injection E as -> ->. eauto.
Qed.

Lemma nonspaces_NotSpace x :
  nonspaces x ↔ x ≠ [] ∧ Forall (fun c => atom_match NotSpace c = true) x.
Proof.
  unfold nonspaces. simpl. 
  assert (E : ∀ c, negb (is_space c) = true ↔ is_space c = false)
    by (intros c; apply negb_true_iff).
  split; intros [N F]; (split; [ done | ]);
    eapply Forall_impl; try exact F; intros c; apply E.
Qed.

(** What [emailRegex] describes is the email shape. *)
Lemma matches_emailRegex s : matches emailRegex s ↔ email_shaped s.
Proof.
  unfold emailRegex, email_shaped. split.
  - intros M.
    inversion M as [ | | ? a ? r1 Na Fa M1 ]; subst; clear M.
    inversion M1 as [ | ? c1 ? r2 A1 M2 | ]; subst; clear M1.
    inversion M2 as [ | | ? b ? r3 Nb Fb M3 ]; subst; clear M2.
    inversion M3 as [ | ? c2 ? r4 A2 M4 | ]; subst; clear M3.
    inversion M4 as [ | | ? c ? r5 Nc Fc M5 ]; subst; clear M4.
    inversion M5; subst; clear M5.
    simpl in A1, A2. apply N.eqb_eq in A1 as ->. apply N.eqb_eq in A2 as ->.
    exists a, b, c. rewrite !nonspaces_NotSpace, app_nil_r. done.
  - intros (a & b & c & [Na Fa]%nonspaces_NotSpace & [Nb Fb]%nonspaces_NotSpace
            & [Nc Fc]%nonspaces_NotSpace & ->).
    apply matches_Plus; [ done | done | ]. simpl.
    apply matches_One; [ done | ].
    apply matches_Plus; [ done | done | ]. simpl.
    apply matches_One; [ done | ].
    rewrite <- (app_nil_r c). apply matches_Plus; [ done | done | ].
    constructor.
Qed.

Lemma isEmailValid_spec email :
  isEmailValid email = true ↔ contains_email_shape email.
Proof.
  unfold isEmailValid, contains_email_shape. rewrite test_spec.
  by setoid_rewrite matches_emailRegex.
Qed.

(** The whole of a string has the email shape exactly when the matcher,
    started at index 0, consumes all of it. *)
Lemma email_shaped_anchored s :
  email_shaped s ↔ match_here emailRegex falsy s = true.
Proof.
  rewrite match_here_spec. setoid_rewrite matches_emailRegex. split.
  - intros E. exists s, []. by rewrite app_nil_r.
  - intros (x & rest & -> & E & F). destruct rest; [ | done ].
    by rewrite app_nil_r.
Qed.

(** ** Validation of the payloads *)

Lemma isEmailValid_nonempty email : isEmailValid email = true -> email ≠ [].
Proof. by intros V ->. Qed.

Lemma createUser_ok call payload st :
  UserPayload_name payload ≠ [] ->
  isEmailValid (UserPayload_email payload) = true ->
  userStorage st !! ic_caller call = None ->
  let newUser :=
    mkUser (ic_caller call) (UserPayload_name payload)
           (UserPayload_email payload) (ic_time call) (ic_time call) in
  createUser call payload st =
    (Ok newUser, set_users st (<[ic_caller call := newUser]> (userStorage st))).
Proof.
  intros Nn%falsy_false V Un%isUserExists_false.
  pose proof (isEmailValid_nonempty _ V) as Ne%falsy_false.
  unfold createUser. by rewrite Nn, Ne, V, Un.
Qed.

Lemma updateMe_ok call payload st user :
  userStorage st !! ic_caller call = Some user ->
  UserPayload_name payload ≠ [] ->
  isEmailValid (UserPayload_email payload) = true ->
  let updatedUser :=
    mkUser (User_id user) (UserPayload_name payload)
           (UserPayload_email payload) (User_createdAt user) (ic_time call) in
  updateMe call payload st =
    (Ok updatedUser,
     set_users st (<[User_id user := updatedUser]> (userStorage st))).
Proof.
  intros M Nn%falsy_false V.
  pose proof (isEmailValid_nonempty _ V) as Ne%falsy_false.
  unfold updateMe.
  rewrite registered_guard by (rewrite M; eauto).
  by rewrite Nn, Ne, V, M.
Qed.

Lemma blank_not_falsy s : blank s -> falsy s = false.
Proof. intros [N _]. by apply falsy_false. Qed.

(** A blank email passes the required-field check and is then turned down by
    the shape check: the pattern needs a code unit that is not white space. *)
Lemma blank_email_invalid email : blank email -> isEmailValid email = false.
Proof.
  intros [_ B]. apply not_true_iff_false.
  intros (pre & mid & post & (a & b & c & [Na Fa] & _ & _ & ->) & ->)
    %isEmailValid_spec.
  destruct a as [ | x a ]; [ done | ].
  apply Forall_cons in Fa as [Fx _].
  apply Forall_app in B as [_ B]. simpl in B.
  apply Forall_cons in B as [Bx _]. congruence.
Qed.

(** C9.  The required-field checks only turn down the empty string.  For a
    name, email or title made of white space alone the check does not fire:
    [createUser] accepts a blank name, and [createTask] and [updateMyTask]
    accept a blank title, and answer [Ok] with the blank field stored. *)
Theorem blank_fields_are_accepted :
  (∀ name email, blank name -> blank email -> falsy name || falsy email = false)
  ∧ (∀ title, blank title -> falsy title = false)
  ∧ (∀ call payload st,
       blank (UserPayload_name payload) ->
       isEmailValid (UserPayload_email payload) = true ->
       userStorage st !! ic_caller call = None ->
       ∃ user st', createUser call payload st = (Ok user, st')
                   ∧ User_name user = UserPayload_name payload
                   ∧ userStorage st' !! ic_caller call = Some user)
  ∧ (∀ call payload st,
       blank (TaskPayload_title payload) ->
       is_Some (userStorage st !! ic_caller call) ->
       ∃ task st', createTask call payload st = (Ok task, st')
                   ∧ Task_title task = TaskPayload_title payload
                   ∧ taskStorage st' !! uuidv4 call = Some task)
  ∧ (∀ call id payload st task,
       blank (TaskPayload_title payload) ->
       is_Some (userStorage st !! ic_caller call) ->
       taskStorage st !! id = Some task ->
       Task_owner task = ic_caller call ->
       ∃ task' st', updateMyTask call id payload st = (Ok task', st')
                    ∧ Task_title task' = TaskPayload_title payload
                    ∧ taskStorage st' !! Task_id task = Some task').
Proof.
  split_and!.
  - intros name email Bn Be. by rewrite !blank_not_falsy.
  - apply blank_not_falsy.
  - intros call payload st [Nn _] V Un. eexists _, _.
    split; [ by apply createUser_ok | ]. split; [ done | ].
    apply lookup_insert_eq.
  - intros call payload st [Nt _] R. eexists _, _.
    split; [ by apply createTask_ok | ]. split; [ done | ].
    apply lookup_insert_eq.
  - intros call id payload st task [Nt _] R M O. eexists _, _.
    split; [ by apply updateMyTask_ok | ]. split; [ done | ].
    apply lookup_insert_eq.
Qed.

Lemma blank_fields_are_accepted_witness :
  let call := mkCall Sample.alice 7 (lit "1b9d6bcd-bbfd-4b2d-9b5d-ab8dfbbd4bed") in
  let payload := mkTaskPayload [32; 9; 160] [] in
  blank (TaskPayload_title payload)
  ∧ is_Some (userStorage Sample.one_task !! Sample.alice)
  ∧ ∃ task st', createTask call payload Sample.one_task = (Ok task, st')
                ∧ Task_title task = [32; 9; 160].
Proof.
  intros call payload.
  assert (B : blank (TaskPayload_title payload)).
  { split; [ discriminate | ]. repeat constructor. }
  assert (R : is_Some (userStorage Sample.one_task !! ic_caller call))
    by (vm_compute; eauto).
  destruct blank_fields_are_accepted as (_ & _ & _ & C & _).
  destruct (C call payload _ B R) as (task & st' & E & Tt & _).
  refine (conj B (conj R _)). exists task, st'. exact (conj E Tt).
Defined.

(** The example of the claim: a name and a title that are one space. *)
Example blank_fields_one_space :
  blank [32]
  ∧ (createUser (mkCall Sample.carol 7 [])
       (mkUserPayload [32] (lit "carol@x.com")) Sample.one_task).1
    = Ok (mkUser Sample.carol [32] (lit "carol@x.com") 7 7)
  ∧ (createTask (mkCall Sample.alice 7 (lit "id-2"))
       (mkTaskPayload [32] []) Sample.one_task).1
    = Ok (mkTask (lit "id-2") [32] [] false Sample.alice 7 7)
  ∧ (updateMyTask (mkCall Sample.alice 7 []) Sample.task_id
       (mkTaskPayload [32] []) Sample.one_task).1
    = Ok (mkTask Sample.task_id [32] [] false Sample.alice 3 7)
  ∧ (createUser (mkCall Sample.carol 7 [])
       (mkUserPayload (lit "Carol") [32]) Sample.one_task).1
    = Err (BadRequest Msg.bad_email).
Proof.
  split; [ split; [ done | by repeat constructor ] | ].
  vm_compute. done.
Qed.

(** C10.  [isEmailValid] is a search, not a match of the whole string: it
    holds exactly when some substring has the email shape.  So [createUser]
    and [updateMe] accept every email that contains such a substring, for
    instance "hello a@b.c world", which as a whole does not have the shape. *)
Theorem isEmailValid_is_a_search :
  (∀ email, isEmailValid email = true ↔ contains_email_shape email)
  ∧ (∀ call payload st,
       contains_email_shape (UserPayload_email payload) ->
       UserPayload_name payload ≠ [] ->
       userStorage st !! ic_caller call = None ->
       ∃ user st', createUser call payload st = (Ok user, st')
                   ∧ User_email user = UserPayload_email payload)
  ∧ (∀ call payload st,
       contains_email_shape (UserPayload_email payload) ->
       UserPayload_name payload ≠ [] ->
       is_Some (userStorage st !! ic_caller call) ->
       ∃ user st', updateMe call payload st = (Ok user, st')
                   ∧ User_email user = UserPayload_email payload)
  ∧ (let email := lit "hello a@b.c world" in
     contains_email_shape email ∧ ¬ email_shaped email
     ∧ isEmailValid email = true).
Proof.
  split_and!.
  - apply isEmailValid_spec.
  - intros call payload st V%isEmailValid_spec Nn Un. eexists _, _.
    split; [ by apply createUser_ok | done ].
  - intros call payload st V%isEmailValid_spec Nn [user M]. eexists _, _.
    split; [ by eapply updateMe_ok | done ].
  - cbv zeta. split_and!.
    + by apply isEmailValid_spec.
    + rewrite email_shaped_anchored. by vm_compute.
    + done.
Qed.

Lemma isEmailValid_is_a_search_witness :
  let email := [32] ++ lit "a@b.c" ++ [32] in
  let payload := mkUserPayload (lit "Carol") email in
  contains_email_shape email
  ∧ userStorage Sample.one_task !! Sample.carol = None
  ∧ isEmailValid email = true
  ∧ ∃ user st', createUser (mkCall Sample.carol 7 []) payload Sample.one_task
                = (Ok user, st')
                ∧ User_email user = email.
Proof.
  intros email payload.
  assert (S : contains_email_shape (UserPayload_email payload)).
  { exists [32], (lit "a@b.c"), [32]. split; [ | reflexivity ].
    exists [97], [98], [99].
    split_and!; try (split; [ discriminate | by repeat constructor ]).
    reflexivity. }
  assert (N : userStorage Sample.one_task
                !! ic_caller (mkCall Sample.carol 7 []) = None)
    by (vm_compute; reflexivity).
  assert (Nn : UserPayload_name payload ≠ []) by (vm_compute; discriminate).
  destruct isEmailValid_is_a_search as (V & C & _).
  destruct (C (mkCall Sample.carol 7 []) payload _ S Nn N)
    as (user & st' & E & Eq).
  refine (conj S (conj N (conj (proj2 (V email) S) _))).
  exists user, st'. exact (conj E Eq).
Defined.

(** The example of the claim, run through both methods. *)
Example hello_email_is_accepted :
  let payload := mkUserPayload (lit "Carol") (lit "hello a@b.c world") in
  (createUser (mkCall Sample.carol 7 []) payload Sample.one_task).1
  = Ok (mkUser Sample.carol (lit "Carol") (lit "hello a@b.c world") 7 7)
  ∧ (updateMe (mkCall Sample.alice 7 []) payload Sample.one_task).1
    = Ok (mkUser Sample.alice (lit "Carol") (lit "hello a@b.c world") 1 7).
Proof. vm_compute. done. Qed.

(** ** The scenario of the specification *)

(** Alice registers, creates "Buy milk", lists it, toggles it, deletes it and
    lists nothing. *)
Example scenario_buy_milk :
  let alice := Sample.alice in
  let s0 := init in
  let r1 := createUser (mkCall alice 1 [])
              (mkUserPayload (lit "Alice") (lit "alice@x.com")) s0 in
  let r2 := createTask (mkCall alice 2 Sample.task_id)
              (mkTaskPayload (lit "Buy milk") (lit "2%")) r1.2 in
  let task := mkTask Sample.task_id (lit "Buy milk") (lit "2%") false alice 2 2 in
  let r3 := getMyTasks (mkCall alice 3 []) r2.2 in
  let r4 := toggleMyTask (mkCall alice 4 []) Sample.task_id r3.2 in
  let r5 := deleteMyTask (mkCall alice 5 []) Sample.task_id r4.2 in
  let r6 := getMyTasks (mkCall alice 6 []) r5.2 in
  r1.1 = Ok (mkUser alice (lit "Alice") (lit "alice@x.com") 1 1)
  ∧ r2.1 = Ok task
  ∧ r3.1 = Ok [task]
  ∧ r4.1 = Ok (mkTask Sample.task_id (lit "Buy milk") (lit "2%") true alice 2 4)
  ∧ r5.1 = Ok Msg.deleted
  ∧ r6.1 = Ok [].
Proof. vm_compute. done. Qed.

(** * Further properties of the methods *)

(** ** Registration and the profile *)

(** X1.  [createUser] answers [BadRequest] and stores nothing when the name
    or the email is empty or the email fails the shape check, whether or not
    the caller is registered. *)
Theorem createUser_rejects_bad_payload (call : Call) (payload : UserPayload)
    (st : State) :
  UserPayload_name payload = []
  ∨ UserPayload_email payload = []
  ∨ isEmailValid (UserPayload_email payload) = false ->
  rejects (createUser call payload st) KBadRequest st.
Proof.
  intros Bad. unfold createUser.
  destruct (falsy (UserPayload_name payload)) eqn:Fn; [ done | ].
  destruct (falsy (UserPayload_email payload)) eqn:Fe; [ done | ].
  apply falsy_false in Fn, Fe. simpl.
  destruct Bad as [ ? | [ ? | -> ] ]; done.
Qed.

Lemma createUser_rejects_bad_payload_witness :
  let payload := mkUserPayload (lit "A") (lit "not-an-email") in
  isEmailValid (UserPayload_email payload) = false
  ∧ rejects (createUser (mkCall Sample.carol 7 []) payload Sample.one_task)
            KBadRequest Sample.one_task.
Proof.
  intros payload.
  assert (V : isEmailValid (UserPayload_email payload) = false)
    by (vm_compute; reflexivity).
  exact (conj V (createUser_rejects_bad_payload (mkCall Sample.carol 7 [])
                   payload Sample.one_task (or_intror (or_intror V)))).
Defined.

(** X2.  [createUser] by an unregistered caller with a name and a valid email
    answers with a record whose id is the caller and whose two time stamps
    are the time of the call; the record is what [getMe] then returns to that
    caller, the records of all other identities and the task store are
    untouched. *)
Theorem createUser_registers (call call' : Call) (payload : UserPayload)
    (st : State) :
  UserPayload_name payload ≠ [] ->
  isEmailValid (UserPayload_email payload) = true ->
  userStorage st !! ic_caller call = None ->
  ic_caller call' = ic_caller call ->
  ∃ user st',
    createUser call payload st = (Ok user, st')
    ∧ User_id user = ic_caller call
    ∧ User_name user = UserPayload_name payload
    ∧ User_email user = UserPayload_email payload
    ∧ User_createdAt user = ic_time call
    ∧ User_updatedAt user = ic_time call
    ∧ getMe call' st' = (Ok user, st')
    ∧ (∀ who, who ≠ ic_caller call ->
         userStorage st' !! who = userStorage st !! who)
    ∧ taskStorage st' = taskStorage st.
Proof.
  intros Nn V Un Same. eexists _, _.
  split; [ by apply createUser_ok | ]. split_and!; try done.
  - unfold getMe, isUserExists, containsKey. simpl.
    rewrite Same, lookup_insert_eq. by rewrite bool_decide_eq_true_2.
  - intros who N. simpl. by rewrite lookup_insert_ne.
Qed.

Lemma createUser_registers_witness :
  let call := mkCall Sample.carol 7 [] in
  let payload := mkUserPayload (lit "Carol") (lit "carol@x.com") in
  UserPayload_name payload ≠ []
  ∧ isEmailValid (UserPayload_email payload) = true
  ∧ userStorage Sample.one_task !! Sample.carol = None
  ∧ ∃ user st',
      createUser call payload Sample.one_task = (Ok user, st')
      ∧ User_id user = Sample.carol
      ∧ getMe (mkCall Sample.carol 8 []) st' = (Ok user, st').
Proof.
  intros call payload.
  assert (Nn : UserPayload_name payload ≠ []) by (vm_compute; discriminate).
  assert (V : isEmailValid (UserPayload_email payload) = true)
    by (vm_compute; reflexivity).
  assert (Un : userStorage Sample.one_task !! ic_caller call = None)
    by (vm_compute; reflexivity).
  destruct (createUser_registers call (mkCall Sample.carol 8 []) payload _
              Nn V Un eq_refl)
    as (user & st' & C & I & _ & _ & _ & _ & G & _).
  refine (conj Nn (conj V (conj Un _))). exists user, st'.
  exact (conj C (conj I G)).
Defined.

(** X3.  In a state the canister can be in, [updateMe] by a registered caller
    with a name and a valid email replaces the name and the email, stamps
    [updatedAt] with the time of the call and keeps [id] and [createdAt]; the
    new record is what [getMe] then returns to that caller, the records of all
    other identities and the task store are untouched. *)
Theorem updateMe_updates (call call' : Call) (payload : UserPayload)
    (st : State) (user : User) :
  reachable st ->
  userStorage st !! ic_caller call = Some user ->
  UserPayload_name payload ≠ [] ->
  isEmailValid (UserPayload_email payload) = true ->
  ic_caller call' = ic_caller call ->
  ∃ user' st',
    updateMe call payload st = (Ok user', st')
    ∧ User_id user' = ic_caller call
    ∧ User_createdAt user' = User_createdAt user
    ∧ User_name user' = UserPayload_name payload
    ∧ User_email user' = UserPayload_email payload
    ∧ User_updatedAt user' = ic_time call
    ∧ getMe call' st' = (Ok user', st')
    ∧ (∀ who, who ≠ ic_caller call ->
         userStorage st' !! who = userStorage st !! who)
    ∧ taskStorage st' = taskStorage st.
Proof.
  intros (_ & I & _)%reachable_invariants M Nn V Same.
  assert (K : User_id user = ic_caller call) by apply (I _ _ M).
  eexists _, _. split; [ by apply updateMe_ok | ]. split_and!; try done.
  - unfold getMe, isUserExists, containsKey. simpl.
    rewrite Same, K, lookup_insert_eq. by rewrite bool_decide_eq_true_2.
  - intros who N. simpl. rewrite K. by rewrite lookup_insert_ne.
Qed.

Lemma updateMe_updates_witness :
  let call := mkCall Sample.alice 7 [] in
  let payload := mkUserPayload (lit "Alice L.") (lit "al@y.org") in
  let alice := mkUser Sample.alice (lit "Alice") (lit "alice@x.com") 1 1 in
  reachable Sample.one_task
  ∧ userStorage Sample.one_task !! Sample.alice = Some alice
  ∧ ∃ user' st',
      updateMe call payload Sample.one_task = (Ok user', st')
      ∧ User_id user' = Sample.alice
      ∧ User_createdAt user' = 1
      ∧ User_updatedAt user' = 7.
Proof.
  intros call payload alice.
  assert (M : userStorage Sample.one_task !! ic_caller call = Some alice)
    by (vm_compute; reflexivity).
  assert (Nn : UserPayload_name payload ≠ []) by (vm_compute; discriminate).
  assert (V : isEmailValid (UserPayload_email payload) = true)
    by (vm_compute; reflexivity).
  destruct (updateMe_updates call call payload _ _ reachable_one_task M Nn V
              eq_refl)
    as (user' & st' & U & I & C & _ & _ & T & _).
  refine (conj reachable_one_task (conj M _)). exists user', st'.
  exact (conj U (conj I (conj C T))).
Defined.

(** X4.  [updateMe] checks registration before the payload: an unregistered
    caller gets [Unauthorized] even with an empty name or a malformed email,
    and a registered caller with an empty name, an empty email or an email
    that fails the shape check gets [BadRequest]; the storages stay as they
    were. *)
Theorem updateMe_check_order (call : Call) (payload : UserPayload)
    (st : State) :
  (userStorage st !! ic_caller call = None ->
     rejects (updateMe call payload st) KUnauthorized st)
  ∧ (is_Some (userStorage st !! ic_caller call) ->
     UserPayload_name payload = []
     ∨ UserPayload_email payload = []
     ∨ isEmailValid (UserPayload_email payload) = false ->
     rejects (updateMe call payload st) KBadRequest st).
Proof.
  split.
  - intros N. by rewrite updateMe_unregistered.
  - intros R Bad. unfold updateMe. rewrite registered_guard by done.
    destruct (falsy (UserPayload_name payload)) eqn:Fn; [ done | ].
    destruct (falsy (UserPayload_email payload)) eqn:Fe; [ done | ].
    apply falsy_false in Fn, Fe. simpl.
    destruct Bad as [ ? | [ ? | -> ] ]; done.
Qed.

Lemma updateMe_check_order_witness :
  let bad := mkUserPayload [] (lit "nobody") in
  rejects (updateMe (mkCall Sample.carol 7 []) bad Sample.one_task)
          KUnauthorized Sample.one_task
  ∧ rejects (updateMe (mkCall Sample.alice 7 []) bad Sample.one_task)
            KBadRequest Sample.one_task.
Proof.
  intros bad. split.
  - apply (proj1 (updateMe_check_order (mkCall Sample.carol 7 []) bad
                    Sample.one_task)).
    vm_compute; reflexivity.
  - apply (proj2 (updateMe_check_order (mkCall Sample.alice 7 []) bad
                    Sample.one_task)).
    + vm_compute; eauto.
    + left. reflexivity.
Defined.

(** Unfolds the eight methods. *)
Ltac unfold_methods :=
  unfold createUser, getMe, updateMe, createTask, getMyTasks, updateMyTask,
    toggleMyTask, deleteMyTask.

Lemma step_other_user call req st who :
  users_keyed_by_id st ->
  ic_caller call ≠ who ->
  userStorage (step call req st) !! who = userStorage st !! who.
Proof.
  intros I N.
  destruct req; simpl; unfold_methods; by_guards; simpl; try done.
  - by rewrite lookup_insert_ne.
  - match goal with
    | H : userStorage st !! ic_caller call = Some ?u |- _ =>
        pose proof (I _ _ H) as K; simpl in K; rewrite K
    end.
    by rewrite lookup_insert_ne.
Qed.

Lemma step_user_kept call req st who user :
  users_keyed_by_id st ->
  userStorage st !! who = Some user ->
  ∃ user', userStorage (step call req st) !! who = Some user'
           ∧ User_createdAt user' = User_createdAt user.
Proof.
  intros I M.
  destruct (decide (ic_caller call = who)) as [ <- | N ];
    [ | exists user; by rewrite step_other_user ].
  destruct req; simpl; unfold_methods; by_guards; simpl; simplify_eq; eauto.
  - match goal with
    | H : isUserExists _ _ = false |- _ => apply isUserExists_false in H
    end.
    congruence.
  - match goal with
    | H : userStorage st !! ic_caller call = Some ?u |- _ =>
        pose proof (I _ _ H) as K; simpl in K
    end.
    rewrite K, lookup_insert_eq. eauto.
Qed.

(** ** What an error, a query and a method leave alone *)

(** X5.  A method that answers with an error has changed nothing: whenever
    the result is [Err], both storages are as they were before the call. *)
Theorem errors_leave_state_unchanged (call : Call) (st : State) :
  (∀ payload, is_Err (createUser call payload st).1 ->
     (createUser call payload st).2 = st)
  ∧ (is_Err (getMe call st).1 -> (getMe call st).2 = st)
  ∧ (∀ payload, is_Err (updateMe call payload st).1 ->
       (updateMe call payload st).2 = st)
  ∧ (∀ payload, is_Err (createTask call payload st).1 ->
       (createTask call payload st).2 = st)
  ∧ (is_Err (getMyTasks call st).1 -> (getMyTasks call st).2 = st)
  ∧ (∀ id payload, is_Err (updateMyTask call id payload st).1 ->
       (updateMyTask call id payload st).2 = st)
  ∧ (∀ id, is_Err (toggleMyTask call id st).1 ->
       (toggleMyTask call id st).2 = st)
  ∧ (∀ id, is_Err (deleteMyTask call id st).1 ->
       (deleteMyTask call id st).2 = st).
Proof.
  split_and!; intros; revert H;
    unfold_methods; by_guards; simpl; done.
Qed.

(** X6.  The two queries never change the state; [createUser] and [updateMe]
    never change the task store; the four task methods never change the user
    store. *)
Theorem methods_touch_one_store (call : Call) (req : Request) (st : State) :
  match req with
  | GetMe | GetMyTasks => step call req st = st
  | CreateUser _ | UpdateMe _ =>
      taskStorage (step call req st) = taskStorage st
  | CreateTask _ | UpdateMyTask _ _ | ToggleMyTask _ | DeleteMyTask _ =>
      userStorage (step call req st) = userStorage st
  end.
Proof.
  destruct req; simpl; unfold_methods; by_guards; simpl; done.
Qed.

(** X7.  The [.Some] of a lookup is only taken after [containsKey] has
    answered true for the same key, so it is never undefined: no method
    answers [InternalError], in any state and for any arguments. *)
Theorem no_internal_error (call : Call) (st : State) :
  (∀ payload, ¬ fails_with (createUser call payload st).1 KInternalError)
  ∧ ¬ fails_with (getMe call st).1 KInternalError
  ∧ (∀ payload, ¬ fails_with (updateMe call payload st).1 KInternalError)
  ∧ (∀ payload, ¬ fails_with (createTask call payload st).1 KInternalError)
  ∧ ¬ fails_with (getMyTasks call st).1 KInternalError
  ∧ (∀ id payload,
       ¬ fails_with (updateMyTask call id payload st).1 KInternalError)
  ∧ (∀ id, ¬ fails_with (toggleMyTask call id st).1 KInternalError)
  ∧ (∀ id, ¬ fails_with (deleteMyTask call id st).1 KInternalError).
Proof.
  assert (U : ∀ who, negb (isUserExists st who) = false ->
                     userStorage st !! who = None -> False).
  { intros who R%negb_false_iff%isUserExists_true N.
    rewrite N in R. by destruct R. }
  assert (T : ∀ id, negb (isTaskExists st id) = false ->
                    taskStorage st !! id = None -> False).
  { intros id R%negb_false_iff%isTaskExists_true N.
    rewrite N in R. by destruct R. }
  split_and!; intros; unfold_methods; by_guards; simpl;
    solve [ done | tauto | exfalso; eauto ].
Qed.

(** ** Invariants along a run *)

(** X8.  In every state the canister can be in, a task is stored under its
    own [id] and its owner has a user record, and a user is stored under its
    own [id]. *)
Theorem reachable_stores_are_consistent (st : State) :
  reachable st ->
  (∀ id task, taskStorage st !! id = Some task ->
     Task_id task = id ∧ is_Some (userStorage st !! Task_owner task))
  ∧ (∀ who user, userStorage st !! who = Some user -> User_id user = who).
Proof.
  intros (T & U & O)%reachable_invariants. split.
  - intros id task M. split; [ apply (T _ _ M) | apply (O _ _ M) ].
  - intros who user M. apply (U _ _ M).
Qed.

Lemma reachable_stores_are_consistent_witness :
  reachable Sample.one_task
  ∧ Task_id Sample.buy_milk = Sample.task_id
  ∧ is_Some (userStorage Sample.one_task !! Task_owner Sample.buy_milk).
Proof.
  assert (M : taskStorage Sample.one_task !! Sample.task_id
              = Some Sample.buy_milk) by (vm_compute; reflexivity).
  exact (conj reachable_one_task
           (proj1 (reachable_stores_are_consistent _ reachable_one_task)
              _ _ M)).
Defined.

Lemma reachable_run msgs st : reachable st -> reachable (run msgs st).
Proof.
  revert st. induction msgs as [ | [call req] msgs IH ]; intros st R; simpl.
  - done.
  - apply IH. by constructor.
Qed.

(** X9.  There is no way back from registration: in a state the canister can
    be in, the record of a registered identity is still there after any
    sequence of messages, under the same [id] and with the same
    [createdAt]. *)
Theorem registration_is_permanent (st : State) (who : Principal)
    (user : User) (msgs : list (Call * Request)) :
  reachable st ->
  userStorage st !! who = Some user ->
  ∃ user', userStorage (run msgs st) !! who = Some user'
           ∧ User_id user' = User_id user
           ∧ User_createdAt user' = User_createdAt user.
Proof.
  intros R M.
  assert (K : User_id user = who).
  { apply reachable_invariants in R as (_ & I & _). apply (I _ _ M). }
  revert st user R M K.
  induction msgs as [ | [call req] msgs IH ]; intros st user R M K; simpl.
  - eauto.
  - pose proof R as (_ & I & _)%reachable_invariants.
    destruct (step_user_kept call req st who user I M) as (user1 & M1 & C1).
    assert (R1 : reachable (step call req st)) by by constructor.
    assert (K1 : User_id user1 = who).
    { apply reachable_invariants in R1 as (_ & I1 & _). apply (I1 _ _ M1). }
    destruct (IH _ _ R1 M1 K1) as (user' & M' & K' & C').
    exists user'. split_and!; [ done | congruence | congruence ].
Qed.

Lemma registration_is_permanent_witness :
  let msgs :=
    [ (mkCall Sample.alice 7 [],
       UpdateMe (mkUserPayload (lit "Alice L.") (lit "al@y.org")));
      (mkCall Sample.alice 8 [], DeleteMyTask Sample.task_id);
      (mkCall Sample.alice 9 [],
       CreateUser (mkUserPayload (lit "Al") (lit "a@b.c"))) ] in
  let alice := mkUser Sample.alice (lit "Alice") (lit "alice@x.com") 1 1 in
  reachable Sample.one_task
  ∧ userStorage Sample.one_task !! Sample.alice = Some alice
  ∧ ∃ user', userStorage (run msgs Sample.one_task) !! Sample.alice = Some user'
             ∧ User_id user' = Sample.alice
             ∧ User_createdAt user' = 1.
Proof.
  intros msgs alice.
  assert (M : userStorage Sample.one_task !! Sample.alice = Some alice)
    by (vm_compute; reflexivity).
  exact (conj reachable_one_task
           (conj M (registration_is_permanent _ _ _ msgs reachable_one_task M))).
Defined.

(** X10.  In a state the canister can be in, no message changes the record
    of an identity other than its caller: a profile is only ever written by
    its own identity. *)
Theorem only_own_profile_changes (call : Call) (req : Request) (st : State)
    (who : Principal) :
  reachable st ->
  ic_caller call ≠ who ->
  userStorage (step call req st) !! who = userStorage st !! who.
Proof.
  intros (_ & I & _)%reachable_invariants N. by apply step_other_user.
Qed.

Lemma only_own_profile_changes_witness :
  reachable Sample.one_task
  ∧ Sample.bob ≠ Sample.alice
  ∧ userStorage (step (mkCall Sample.bob 7 [])
                   (UpdateMe (mkUserPayload (lit "Alice") (lit "bob@x.com")))
                   Sample.one_task) !! Sample.alice
    = userStorage Sample.one_task !! Sample.alice.
Proof.
  assert (N : ic_caller (mkCall Sample.bob 7 []) ≠ Sample.alice)
    by (vm_compute; discriminate).
  exact (conj reachable_one_task
           (conj N (only_own_profile_changes _ _ _ _ reachable_one_task N))).
Defined.

(** ** Who can change a task *)

Lemma owner_check_false_inv task who :
  bool_decide (toText (Task_owner task) ≠ toText who) = false ->
  Task_owner task = who.
Proof.
  intros E%bool_decide_eq_false. apply toText_inj.
  by destruct (decide (toText (Task_owner task) = toText who)).
Qed.

(** One message writes the task store at most once: not at all, one insert
    by [createTask], one replacement of a task by its owner that keeps its
    id, owner and creation time, or one removal of a task by its owner. *)
Lemma step_tasks_cases call req st :
  taskStorage (step call req st) = taskStorage st
  ∨ (∃ payload, req = CreateTask payload
       ∧ taskStorage (step call req st)
         = <[uuidv4 call := created call payload]> (taskStorage st))
  ∨ (∃ id t t', taskStorage st !! id = Some t
       ∧ Task_owner t = ic_caller call
       ∧ Task_id t' = Task_id t
       ∧ Task_owner t' = Task_owner t
       ∧ Task_createdAt t' = Task_createdAt t
       ∧ taskStorage (step call req st) = <[Task_id t := t']> (taskStorage st))
  ∨ (∃ id t, taskStorage st !! id = Some t
       ∧ Task_owner t = ic_caller call
       ∧ taskStorage (step call req st) = delete (Task_id t) (taskStorage st)).
Proof.
  destruct req; simpl; unfold_methods; by_guards; simpl;
    try (by left);
    repeat match goal with
           | H : bool_decide _ = false |- _ => apply owner_check_false_inv in H
           end.
  - right; left. eauto.
  - right; right; left. eexists _, _, _.
    split_and!; [ eassumption | done | idtac | idtac | idtac | reflexivity ];
      done.
  - right; right; left. eexists _, _, _.
    split_and!; [ eassumption | done | idtac | idtac | idtac | reflexivity ];
      done.
  - right; right; right. eexists _, _. split_and!; [ eassumption | done | done ].
Qed.

(** What one message can do to a stored task, unless it is a [createTask]
    that draws the id of that task: nothing, or, for its owner, remove it or
    replace it by a task of the same id, owner and creation time. *)
Lemma step_task_lookup call req st id task :
  tasks_keyed_by_id st ->
  taskStorage st !! id = Some task ->
  (∀ payload, req = CreateTask payload -> uuidv4 call ≠ id) ->
  taskStorage (step call req st) !! id = Some task
  ∨ (ic_caller call = Task_owner task
     ∧ (taskStorage (step call req st) !! id = None
        ∨ ∃ task', taskStorage (step call req st) !! id = Some task'
                   ∧ Task_id task' = Task_id task
                   ∧ Task_owner task' = Task_owner task
                   ∧ Task_createdAt task' = Task_createdAt task)).
Proof.
  intros I M Fresh.
  destruct (step_tasks_cases call req st)
    as [ E | [ (payload & -> & E)
           | [ (id' & t & t' & M' & O & Ki & Ko & Kc & E)
             | (id' & t & M' & O & E) ] ] ];
    rewrite E; clear E.
  - by left.
  - left. rewrite lookup_insert_ne; [ done | ]. exact (Fresh _ eq_refl).
  - rewrite (I _ _ M'). destruct (decide (id' = id)) as [ -> | N ].
    + right. rewrite lookup_insert_eq. simplify_eq. eauto 10.
    + left. by rewrite lookup_insert_ne.
  - rewrite (I _ _ M'). destruct (decide (id' = id)) as [ -> | N ].
    + right. rewrite lookup_delete_eq. simplify_eq. eauto.
    + left. by rewrite lookup_delete_ne.
Qed.

(** X11.  In a state the canister can be in, a message from a caller who is
    not the owner of a stored task leaves that task as it is, whatever the
    method and its arguments; the one exception is a [createTask] whose
    generated id is the id of the task. *)
Theorem only_owner_changes_task (call : Call) (req : Request) (st : State)
    (id : text) (task : Task) :
  reachable st ->
  taskStorage st !! id = Some task ->
  ic_caller call ≠ Task_owner task ->
  (∀ payload, req = CreateTask payload -> uuidv4 call ≠ id) ->
  taskStorage (step call req st) !! id = Some task.
Proof.
  intros (I & _ & _)%reachable_invariants M N Fresh.
  destruct (step_task_lookup call req st id task I M Fresh) as [ ? | [? _] ];
    done.
Qed.

Lemma only_owner_changes_task_witness :
  let call := mkCall Sample.bob 7 [] in
  reachable Sample.one_task
  ∧ taskStorage Sample.one_task !! Sample.task_id = Some Sample.buy_milk
  ∧ ic_caller call ≠ Task_owner Sample.buy_milk
  ∧ taskStorage (step call (DeleteMyTask Sample.task_id) Sample.one_task)
      !! Sample.task_id = Some Sample.buy_milk.
Proof.
  intros call.
  assert (M : taskStorage Sample.one_task !! Sample.task_id
              = Some Sample.buy_milk) by (vm_compute; reflexivity).
  assert (N : ic_caller call ≠ Task_owner Sample.buy_milk)
    by (vm_compute; discriminate).
  refine (conj reachable_one_task (conj M (conj N _))).
  apply (only_owner_changes_task call _ _ _ _ reachable_one_task M N).
  intros payload; discriminate.
Defined.

(** X12.  In a state the canister can be in, the [id], the [owner] and the
    [createdAt] of a stored task never change while it is stored: after any
    message other than a [createTask] that draws the same id, the task under
    that id, if there still is one, has the three fields it had. *)
Theorem task_identity_is_immutable (call : Call) (req : Request) (st : State)
    (id : text) (task task' : Task) :
  reachable st ->
  taskStorage st !! id = Some task ->
  (∀ payload, req = CreateTask payload -> uuidv4 call ≠ id) ->
  taskStorage (step call req st) !! id = Some task' ->
  Task_id task' = Task_id task
  ∧ Task_owner task' = Task_owner task
  ∧ Task_createdAt task' = Task_createdAt task.
Proof.
  intros (I & _ & _)%reachable_invariants M Fresh M'.
  destruct (step_task_lookup call req st id task I M Fresh)
    as [ E | (_ & [ E | (t & E & ?) ]) ];
    rewrite E in M'; by simplify_eq.
Qed.

Lemma task_identity_is_immutable_witness :
  let call := mkCall Sample.alice 7 [] in
  let req := UpdateMyTask Sample.task_id Sample.new_title in
  let task' := mkTask Sample.task_id (lit "Buy oat milk") [] false
                      Sample.alice 3 7 in
  reachable Sample.one_task
  ∧ taskStorage Sample.one_task !! Sample.task_id = Some Sample.buy_milk
  ∧ taskStorage (step call req Sample.one_task) !! Sample.task_id = Some task'
  ∧ Task_owner task' = Task_owner Sample.buy_milk
  ∧ Task_createdAt task' = Task_createdAt Sample.buy_milk.
Proof.
  intros call req task'.
  assert (M : taskStorage Sample.one_task !! Sample.task_id
              = Some Sample.buy_milk) by (vm_compute; reflexivity).
  assert (M' : taskStorage (step call req Sample.one_task) !! Sample.task_id
               = Some task') by (vm_compute; reflexivity).
  assert (F : ∀ payload, req = CreateTask payload -> uuidv4 call ≠ Sample.task_id)
    by (intros payload; discriminate).
  destruct (task_identity_is_immutable call req _ _ _ _ reachable_one_task
              M F M') as (_ & O & C).
  exact (conj reachable_one_task (conj M (conj M' (conj O C)))).
Defined.

(** ** Listings before and after a change *)

Lemma tasks_of_lookup who st id task :
  taskStorage st !! id = Some task ->
  tasks_of who st
  ≡ₚ (if decide (Task_owner task = who) then [task] else [])
     ++ tasks_of who (set_tasks st (delete id (taskStorage st))).
Proof.
  intros M. rewrite <- tasks_of_insert.
  by rewrite (insert_id _ _ _ M), set_tasks_id.
Qed.

Lemma values_NoDup st : tasks_keyed_by_id st -> NoDup (values (taskStorage st)).
Proof.
  intros I. unfold values. apply NoDup_fmap_2_strong.
  - intros [k1 t1] [k2 t2] In1%elem_of_map_to_list In2%elem_of_map_to_list.
    simpl. intros ->. f_equal. by rewrite <- (I _ _ In1), <- (I _ _ In2).
  - apply NoDup_map_to_list.
Qed.

(** How the listings change when the task under [id] is replaced by a task of
    the same owner: the owner's listing swaps the old task for the new one,
    every other listing keeps its tasks. *)
Lemma tasks_of_replace st id task task' :
  taskStorage st !! id = Some task ->
  Task_owner task' = Task_owner task ->
  let st' := set_tasks st (<[id := task']> (taskStorage st)) in
  (∃ rest, tasks_of (Task_owner task) st ≡ₚ task :: rest
           ∧ tasks_of (Task_owner task) st' ≡ₚ task' :: rest)
  ∧ (∀ who, who ≠ Task_owner task -> tasks_of who st' ≡ₚ tasks_of who st).
Proof.
  intros M O st'. split.
  - exists (tasks_of (Task_owner task)
              (set_tasks st (delete id (taskStorage st)))).
    split.
    + by rewrite (tasks_of_lookup _ _ _ _ M), decide_True.
    + unfold st'. by rewrite tasks_of_insert, decide_True.
  - intros who N. unfold st'.
    rewrite tasks_of_insert, (tasks_of_lookup who _ _ _ M).
    by rewrite !decide_False by congruence.
Qed.

(** X13.  [getMyTasks] answers a registered caller with the stored tasks the
    caller owns, all of them and no others; in a state the canister can be in
    no task is listed twice; and no task is in the listings of two different
    identities. *)
Theorem getMyTasks_lists_own_tasks (call : Call) (st : State) :
  is_Some (userStorage st !! ic_caller call) ->
  ∃ listing,
    getMyTasks call st = (Ok listing, st)
    ∧ (∀ task, task ∈ listing
               ↔ Task_owner task = ic_caller call
                 ∧ ∃ id, taskStorage st !! id = Some task)
    ∧ (reachable st -> NoDup listing)
    ∧ (∀ call' listing', ic_caller call' ≠ ic_caller call ->
         getMyTasks call' st = (Ok listing', st) ->
         ∀ task, task ∈ listing -> task ∉ listing').
Proof.
  intros R. exists (tasks_of (ic_caller call) st). split_and!.
  - by apply getMyTasks_ok.
  - intros task. apply elem_of_tasks_of.
  - intros (I & _ & _)%reachable_invariants.
    apply NoDup_filter. by apply values_NoDup.
  - intros call' listing' N G task [O _]%elem_of_tasks_of In'.
    unfold getMyTasks in G. destruct (negb _); [ done | ].
    injection G as <-.
    apply elem_of_tasks_of in In' as [O' _]. congruence.
Qed.

Lemma getMyTasks_lists_own_tasks_witness :
  is_Some (userStorage Sample.one_task !! Sample.alice)
  ∧ ∃ listing,
      getMyTasks (mkCall Sample.alice 7 []) Sample.one_task
      = (Ok listing, Sample.one_task)
      ∧ Sample.buy_milk ∈ listing
      ∧ NoDup listing.
Proof.
  assert (R : is_Some (userStorage Sample.one_task
                         !! ic_caller (mkCall Sample.alice 7 [])))
    by (vm_compute; eauto).
  assert (M : taskStorage Sample.one_task !! Sample.task_id
              = Some Sample.buy_milk) by (vm_compute; reflexivity).
  destruct (getMyTasks_lists_own_tasks _ _ R) as (listing & G & In & ND & _).
  refine (conj R _). exists listing.
  refine (conj G (conj _ (ND reachable_one_task))).
  apply In. split; [ reflexivity | ]. exists Sample.task_id. exact M.
Defined.

(** X14.  In a state the canister can be in, [toggleMyTask] by the registered
    owner flips [isCompleted], stamps [updatedAt] and keeps every other field
    of the task; the owner's listing swaps the old task for the new one and
    is otherwise the same, the listings of all other identities keep their
    tasks, and the user store is untouched. *)
Theorem toggleMyTask_changes_one_task (call : Call) (st : State) (id : text)
    (task : Task) :
  reachable st ->
  is_Some (userStorage st !! ic_caller call) ->
  taskStorage st !! id = Some task ->
  Task_owner task = ic_caller call ->
  ∃ task' st',
    toggleMyTask call id st = (Ok task', st')
    ∧ task' = mkTask id (Task_title task) (Task_description task)
                (negb (Task_isCompleted task)) (ic_caller call)
                (Task_createdAt task) (ic_time call)
    ∧ taskStorage st' = <[id := task']> (taskStorage st)
    ∧ userStorage st' = userStorage st
    ∧ (∃ rest, tasks_of (ic_caller call) st ≡ₚ task :: rest
               ∧ tasks_of (ic_caller call) st' ≡ₚ task' :: rest)
    ∧ (∀ who, who ≠ ic_caller call -> tasks_of who st' ≡ₚ tasks_of who st).
Proof.
  intros (I & _ & _)%reachable_invariants R M O.
  assert (K : Task_id task = id) by apply (I _ _ M).
  eexists _, _. split; [ by apply toggleMyTask_ok | ].
  rewrite K.
  destruct (tasks_of_replace st id task (toggled task (ic_time call)) M eq_refl)
    as [Own Others].
  rewrite O in Own, Others.
  split_and!; try done.
  unfold toggled. by rewrite K, O.
Qed.

Lemma toggleMyTask_changes_one_task_witness :
  let call := mkCall Sample.alice 7 [] in
  reachable Sample.one_task
  ∧ is_Some (userStorage Sample.one_task !! Sample.alice)
  ∧ taskStorage Sample.one_task !! Sample.task_id = Some Sample.buy_milk
  ∧ Task_owner Sample.buy_milk = Sample.alice
  ∧ ∃ st', toggleMyTask call Sample.task_id Sample.one_task
           = (Ok (mkTask Sample.task_id (lit "Buy milk") (lit "2%") true
                         Sample.alice 3 7), st')
           ∧ userStorage st' = userStorage Sample.one_task.
Proof.
  intros call.
  assert (R : is_Some (userStorage Sample.one_task !! ic_caller call))
    by (vm_compute; eauto).
  assert (M : taskStorage Sample.one_task !! Sample.task_id
              = Some Sample.buy_milk) by (vm_compute; reflexivity).
  assert (O : Task_owner Sample.buy_milk = ic_caller call) by reflexivity.
  destruct (toggleMyTask_changes_one_task call _ _ _ reachable_one_task R M O)
    as (task' & st' & T & -> & _ & U & _).
  refine (conj reachable_one_task (conj R (conj M (conj O _)))).
  exists st'. exact (conj T U).
Defined.

(** X15.  In a state the canister can be in, [updateMyTask] by the registered
    owner with a title replaces title and description, stamps [updatedAt] and
    keeps [isCompleted] and every other field; the owner's listing swaps the
    old task for the new one and is otherwise the same, the listings of all
    other identities keep their tasks, and the user store is untouched. *)
Theorem updateMyTask_changes_one_task (call : Call) (st : State) (id : text)
    (payload : TaskPayload) (task : Task) :
  reachable st ->
  is_Some (userStorage st !! ic_caller call) ->
  TaskPayload_title payload ≠ [] ->
  taskStorage st !! id = Some task ->
  Task_owner task = ic_caller call ->
  ∃ task' st',
    updateMyTask call id payload st = (Ok task', st')
    ∧ task' = mkTask id (TaskPayload_title payload)
                (TaskPayload_description payload) (Task_isCompleted task)
                (ic_caller call) (Task_createdAt task) (ic_time call)
    ∧ taskStorage st' = <[id := task']> (taskStorage st)
    ∧ userStorage st' = userStorage st
    ∧ (∃ rest, tasks_of (ic_caller call) st ≡ₚ task :: rest
               ∧ tasks_of (ic_caller call) st' ≡ₚ task' :: rest)
    ∧ (∀ who, who ≠ ic_caller call -> tasks_of who st' ≡ₚ tasks_of who st).
Proof.
  intros (I & _ & _)%reachable_invariants R T M O.
  assert (K : Task_id task = id) by apply (I _ _ M).
  eexists _, _. split; [ by apply updateMyTask_ok | ].
  rewrite K.
  destruct (tasks_of_replace st id task (updated task payload (ic_time call))
              M eq_refl) as [Own Others].
  rewrite O in Own, Others.
  split_and!; try done.
  unfold updated. by rewrite K, O.
Qed.

Lemma updateMyTask_changes_one_task_witness :
  let call := mkCall Sample.alice 7 [] in
  reachable Sample.one_task
  ∧ is_Some (userStorage Sample.one_task !! Sample.alice)
  ∧ TaskPayload_title Sample.new_title ≠ []
  ∧ taskStorage Sample.one_task !! Sample.task_id = Some Sample.buy_milk
  ∧ Task_owner Sample.buy_milk = Sample.alice
  ∧ ∃ st', updateMyTask call Sample.task_id Sample.new_title Sample.one_task
           = (Ok (mkTask Sample.task_id (lit "Buy oat milk") [] false
                         Sample.alice 3 7), st')
           ∧ userStorage st' = userStorage Sample.one_task.
Proof.
  intros call.
  assert (R : is_Some (userStorage Sample.one_task !! ic_caller call))
    by (vm_compute; eauto).
  assert (T : TaskPayload_title Sample.new_title ≠ [])
    by (vm_compute; discriminate).
  assert (M : taskStorage Sample.one_task !! Sample.task_id
              = Some Sample.buy_milk) by (vm_compute; reflexivity).
  assert (O : Task_owner Sample.buy_milk = ic_caller call) by reflexivity.
  destruct (updateMyTask_changes_one_task call _ _ _ _ reachable_one_task
              R T M O)
    as (task' & st' & U & -> & _ & Us & _).
  refine (conj reachable_one_task (conj R (conj T (conj M (conj O _))))).
  exists st'. exact (conj U Us).
Defined.

(** X16.  In a state the canister can be in, [deleteMyTask] by the registered
    owner removes that one entry: the task store shrinks by one, every other
    entry and the user store are untouched, the owner's listing loses exactly
    the task, and the listings of all other identities keep their tasks. *)
Theorem deleteMyTask_removes_one_task (call : Call) (st : State) (id : text)
    (task : Task) :
  reachable st ->
  is_Some (userStorage st !! ic_caller call) ->
  taskStorage st !! id = Some task ->
  Task_owner task = ic_caller call ->
  ∃ st',
    deleteMyTask call id st = (Ok Msg.deleted, st')
    ∧ taskStorage st' = delete id (taskStorage st)
    ∧ size (taskStorage st) = S (size (taskStorage st'))
    ∧ (∀ id', id' ≠ id -> taskStorage st' !! id' = taskStorage st !! id')
    ∧ userStorage st' = userStorage st
    ∧ tasks_of (ic_caller call) st ≡ₚ task :: tasks_of (ic_caller call) st'
    ∧ (∀ who, who ≠ ic_caller call -> tasks_of who st' ≡ₚ tasks_of who st).
Proof.
  intros (I & _ & _)%reachable_invariants R M O.
  eexists. split; [ by eapply deleteMyTask_at_key | ].
  split_and!; try done.
  - simpl. rewrite <- (insert_delete_id _ _ _ M) at 1.
    by rewrite map_size_insert_None by apply lookup_delete_eq.
  - intros id' N. simpl. by rewrite lookup_delete_ne.
  - by rewrite (tasks_of_lookup _ _ _ _ M), decide_True.
  - intros who N. rewrite (tasks_of_lookup who _ _ _ M).
    by rewrite decide_False by congruence.
Qed.

Lemma deleteMyTask_removes_one_task_witness :
  let call := mkCall Sample.alice 7 [] in
  reachable Sample.one_task
  ∧ is_Some (userStorage Sample.one_task !! Sample.alice)
  ∧ taskStorage Sample.one_task !! Sample.task_id = Some Sample.buy_milk
  ∧ Task_owner Sample.buy_milk = Sample.alice
  ∧ ∃ st', deleteMyTask call Sample.task_id Sample.one_task
           = (Ok Msg.deleted, st')
           ∧ size (taskStorage Sample.one_task) = S (size (taskStorage st')).
Proof.
  intros call.
  assert (R : is_Some (userStorage Sample.one_task !! ic_caller call))
    by (vm_compute; eauto).
  assert (M : taskStorage Sample.one_task !! Sample.task_id
              = Some Sample.buy_milk) by (vm_compute; reflexivity).
  assert (O : Task_owner Sample.buy_milk = ic_caller call) by reflexivity.
  destruct (deleteMyTask_removes_one_task call _ _ _ reachable_one_task R M O)
    as (st' & D & _ & Sz & _).
  refine (conj reachable_one_task (conj R (conj M (conj O _)))).
  exists st'. exact (conj D Sz).
Defined.

(** ** Time stamps *)

Lemma step_stamps call req st now :
  stamps_before now st ->
  now ≤ ic_time call ->
  stamps_before (ic_time call) (step call req st).
Proof.
  intros [T U] L.
  assert (T' : map_Forall (fun _ task =>
                 Task_createdAt task ≤ Task_updatedAt task
                 ∧ Task_updatedAt task ≤ ic_time call) (taskStorage st)).
  { eapply map_Forall_impl; [ exact T | ]. simpl. intros; lia. }
  assert (U' : map_Forall (fun _ user =>
                 User_createdAt user ≤ User_updatedAt user
                 ∧ User_updatedAt user ≤ ic_time call) (userStorage st)).
  { eapply map_Forall_impl; [ exact U | ]. simpl. intros; lia. }
  destruct req; simpl; unfold_methods; by_guards; simpl;
    (split; [ try exact T' | try exact U' ]);
    try (apply map_Forall_delete; exact T');
    apply map_Forall_insert_2; try done; simpl;
    try match goal with
        | H : taskStorage st !! _ = Some ?t |- _ => pose proof (T _ _ H)
        | H : userStorage st !! _ = Some ?u |- _ => pose proof (U _ _ H)
        end;
    simpl in *; lia.
Qed.

(** X17.  Started from the empty storages and fed messages whose times never
    go back, the canister keeps [createdAt ≤ updatedAt] in every task and
    every user record. *)
Theorem stamps_stay_ordered (msgs : list (Call * Request)) :
  ascending 0 msgs ->
  (∀ id task, taskStorage (run msgs init) !! id = Some task ->
     Task_createdAt task ≤ Task_updatedAt task)
  ∧ (∀ who user, userStorage (run msgs init) !! who = Some user ->
       User_createdAt user ≤ User_updatedAt user).
Proof.
  intros A.
  assert (G : ∀ now st, stamps_before now st -> ascending now msgs ->
                ∃ now', stamps_before now' (run msgs st)).
  { clear A. induction msgs as [ | [call req] msgs IH ]; intros now st S A.
    - by exists now.
    - destruct A as [L A]. simpl in *.
      apply (IH (ic_time call)); [ | done ]. by apply (step_stamps _ _ _ now). }
  destruct (G 0 init) as (now' & T & U); [ | done | ].
  - split; apply map_Forall_empty.
  - split.
    + intros id task M. apply (T _ _ M).
    + intros who user M. apply (U _ _ M).
Qed.

Lemma stamps_stay_ordered_witness :
  let msgs :=
    [ (mkCall Sample.alice 1 [],
       CreateUser (mkUserPayload (lit "Alice") (lit "alice@x.com")));
      (mkCall Sample.alice 3 Sample.task_id,
       CreateTask (mkTaskPayload (lit "Buy milk") (lit "2%")));
      (mkCall Sample.alice 3 [], ToggleMyTask Sample.task_id);
      (mkCall Sample.alice 8 [], UpdateMe (mkUserPayload (lit "Al") (lit "a@b.c"))) ] in
  ascending 0 msgs
  ∧ ∀ id task, taskStorage (run msgs init) !! id = Some task ->
               Task_createdAt task ≤ Task_updatedAt task.
Proof.
  intros msgs.
  assert (A : ascending 0 msgs) by (vm_compute; intuition discriminate).
  exact (conj A (proj1 (stamps_stay_ordered msgs A))).
Defined.

(** The order of the stamps rests on the time source alone: when the time of
    a later call is earlier, [toggleMyTask] stores it as it is. *)
Example stamps_follow_the_clock :
  (toggleMyTask (mkCall Sample.alice 2 []) Sample.task_id Sample.one_task).1
  = Ok (mkTask Sample.task_id (lit "Buy milk") (lit "2%") true Sample.alice 3 2).
Proof. vm_compute. done. Qed.

(** ** More on the email check *)

(** X18.  An email stays valid whatever is put before and after it: if
    [isEmailValid] accepts a string, it accepts every string that contains
    it. *)
Theorem isEmailValid_superstring (email pre post : text) :
  isEmailValid email = true ->
  isEmailValid (pre ++ email ++ post) = true.
Proof.
  rewrite !isEmailValid_spec. intros (p & mid & q & S & ->).
  exists (pre ++ p), mid, (q ++ post). split; [ done | ].
  by rewrite <- !(assoc_L (++)).
Qed.

Lemma isEmailValid_superstring_witness :
  isEmailValid (lit "a@b.c") = true
  ∧ isEmailValid (lit "mailto: " ++ lit "a@b.c" ++ lit " (home)") = true.
Proof.
  assert (V : isEmailValid (lit "a@b.c") = true) by (vm_compute; reflexivity).
  exact (conj V (isEmailValid_superstring _ (lit "mailto: ") (lit " (home)") V)).
Defined.

Lemma nonspaces_part (s : text) :
  Forall (fun c => is_space c = false) s -> (0 < List.length s)%nat ->
  nonspaces s.
Proof. intros F L. split; [ | done ]. intros ->. simpl in L. lia. Qed.

(** X19.  An email that [isEmailValid] accepts has an at sign that is not its
    first code unit and, later, a dot that is not its last one, with at least
    one code unit between the two.  For an email without white space that is
    all it takes. *)
Theorem isEmailValid_at_then_dot (email : text) :
  (isEmailValid email = true -> ∃ i j, at_then_dot email i j)
  ∧ (Forall (fun c => is_space c = false) email ->
     (∃ i j, at_then_dot email i j) -> isEmailValid email = true).
Proof.
  split.
  - intros (pre & mid & post & (a & b & c & [Na _] & [Nb _] & [Nc _] & ->) & ->)
      %isEmailValid_spec.
    exists (List.length (pre ++ a)),
           (List.length (pre ++ a ++ [64] ++ b)).
    assert (La : (0 < List.length a)%nat) by (destruct a; simpl; [ done | lia ]).
    assert (Lb : (0 < List.length b)%nat) by (destruct b; simpl; [ done | lia ]).
    assert (Lc : (0 < List.length c)%nat) by (destruct c; simpl; [ done | lia ]).
    unfold at_then_dot, char16 in *. split_and!.
    + rewrite length_app. lia.
    + rewrite !length_app. simpl. lia.
    + rewrite !length_app. simpl. rewrite ?length_app. simpl. lia.
    + replace (pre ++ (a ++ [64] ++ b ++ [46] ++ c) ++ post)
        with ((pre ++ a) ++ 64 :: (b ++ [46] ++ c) ++ post)
        by (by rewrite <- !(assoc_L (++))).
      apply list_lookup_middle. done.
    + replace (pre ++ (a ++ [64] ++ b ++ [46] ++ c) ++ post)
        with ((pre ++ a ++ [64] ++ b) ++ 46 :: c ++ post)
        by (by rewrite <- !(assoc_L (++))).
      apply list_lookup_middle. done.
  - intros F (i & j & Li & Lij & Lj & At & Dot).
    apply isEmailValid_spec. exists [], email, []. rewrite app_nil_r.
    split; [ | done ].
    set (rest := drop (S i) email).
    assert (Dot' : rest !! (j - S i)%nat = Some 46).
    { unfold rest. rewrite lookup_drop. by replace (S i + (j - S i))%nat with j by lia. }
    exists (take i email), (take (j - S i) rest), (drop (S (j - S i)) rest).
    split_and!.
    + apply nonspaces_part; [ by apply Forall_take | ].
      rewrite length_take. lia.
    + apply nonspaces_part; [ by apply Forall_take, Forall_drop | ].
      unfold rest. rewrite length_take, length_drop. lia.
    + apply nonspaces_part; [ by apply Forall_drop, Forall_drop | ].
      unfold rest. rewrite !length_drop. lia.
    + cbn [app].
      etransitivity; [ symmetry; apply (take_drop_middle email i 64 At) | ].
      do 2 f_equal. symmetry. apply (take_drop_middle rest _ _ Dot').
Qed.

Lemma isEmailValid_at_then_dot_witness :
  let email := lit "alice@x.com" in
  Forall (fun c => is_space c = false) email
  ∧ at_then_dot email 5 7
  ∧ isEmailValid email = true.
Proof.
  intros email.
  assert (F : Forall (fun c => is_space c = false) email)
    by (repeat constructor).
  assert (A : at_then_dot email 5 7).
  { unfold at_then_dot. simpl. split_and!; try lia; reflexivity. }
  refine (conj F (conj A _)).
  apply (proj2 (isEmailValid_at_then_dot email) F).
  exists 5%nat, 7%nat. exact A.
Defined.

(** ** The random bytes *)

(** A loop that stores [f i] at every index [i] from [k] on leaves the part
    before [k] and holds [f i] from [k] on. *)
Lemma fill_from {A} (f : nat -> A) (m k : nat) (array : list A) :
  List.length array = (k + m)%nat ->
  foldl (fun array i => <[i := f i]> array) array (seq k m)
  = take k array ++ (f <$> seq k m).
Proof.
  revert k array. induction m as [ | m IH ]; intros k array L; simpl.
  - rewrite app_nil_r, take_ge; [ done | lia ].
  - rewrite IH by (rewrite length_insert; lia).
    rewrite (take_S_r _ _ (f k)).
    + rewrite take_insert_ge by lia. by rewrite <- (assoc_L (++)).
    + apply list_lookup_insert_eq. lia.
Qed.

Lemma getRandomValues_eq random :
  getRandomValues random
  = (fun i => ToUint8 (Qround.Qfloor
                (QArith_base.Qmult (random i) (QArith_base.inject_Z 256))))
    <$> seq 0 32.
Proof.
  unfold getRandomValues.
  rewrite length_replicate. by rewrite fill_from by by rewrite length_replicate.
Qed.

Lemma floor_of_scaled (q : QArith_base.Q) :
  QArith_base.Qle (QArith_base.inject_Z 0) q ->
  QArith_base.Qlt q (QArith_base.inject_Z 1) ->
  (0 ≤ Qround.Qfloor (QArith_base.Qmult q (QArith_base.inject_Z 256)) < 256)%Z.
Proof.
  intros Lo Hi. split.
  - change 0%Z with (Qround.Qfloor (QArith_base.inject_Z 0)).
    apply Qround.Qfloor_resp_le.
    apply (QArith_base.Qmult_le_0_compat q (QArith_base.inject_Z 256));
      [ exact Lo | done ].
  - rewrite QArith_base.Zlt_Qlt.
    eapply QArith_base.Qle_lt_trans; [ apply Qround.Qfloor_le | ].
    change (QArith_base.inject_Z 256)
      with (QArith_base.Qmult (QArith_base.inject_Z 1)
              (QArith_base.inject_Z 256)) at 2.
    apply QArith_base.Qmult_lt_compat_r; [ done | exact Hi ].
Qed.

(** X20.  [getRandomValues] answers with 32 bytes, each between 0 and 255,
    and when every draw is in the unit interval the byte at index [i] is the
    integer part of 256 times the [i]-th draw, unchanged by the conversion to
    a byte. *)
Theorem getRandomValues_bytes (random : nat -> QArith_base.Q) :
  List.length (getRandomValues random) = 32%nat
  ∧ Forall (fun byte => (0 ≤ byte < 256)%Z) (getRandomValues random)
  ∧ ((∀ i, (i < 32)%nat ->
        QArith_base.Qle (QArith_base.inject_Z 0) (random i)
        ∧ QArith_base.Qlt (random i) (QArith_base.inject_Z 1)) ->
     ∀ i, (i < 32)%nat ->
       getRandomValues random !! i
       = Some (Qround.Qfloor
                 (QArith_base.Qmult (random i) (QArith_base.inject_Z 256)))).
Proof.
  rewrite getRandomValues_eq. split_and!.
  - by rewrite length_fmap, length_seq.
  - apply Forall_fmap, Forall_forall. intros i _. simpl. unfold ToUint8.
    apply Z.mod_pos_bound. done.
  - intros Unit i L. rewrite list_lookup_fmap, lookup_seq_lt by done. simpl.
    f_equal. unfold ToUint8. apply Z.mod_small.
    destruct (Unit i L). by apply floor_of_scaled.
Qed.

Lemma getRandomValues_bytes_witness :
  let random := fun i : nat =>
    QArith_base.Qmake (Z.of_nat i) 32 in
  (∀ i, (i < 32)%nat ->
     QArith_base.Qle (QArith_base.inject_Z 0) (random i)
     ∧ QArith_base.Qlt (random i) (QArith_base.inject_Z 1))
  ∧ getRandomValues random !! 3%nat = Some 24%Z.
Proof.
  intros random.
  assert (U : ∀ i, (i < 32)%nat ->
            QArith_base.Qle (QArith_base.inject_Z 0) (random i)
            ∧ QArith_base.Qlt (random i) (QArith_base.inject_Z 1)).
  { intros i L. unfold random, QArith_base.Qle, QArith_base.Qlt. simpl. lia. }
  refine (conj U _).
  exact (proj2 (proj2 (getRandomValues_bytes random)) U 3%nat ltac:(lia)).
Defined.
